(** * A terminal flashcard viewer: shallow embedding and verified properties

    The development follows the Go sources [models.go], [ai.go], [app.go]
    and [main.go] of package [main].  Go strings are byte strings and are
    modelled by [string]; Go's [int] is a 64-bit two's complement integer,
    modelled by [Z] with the wrap-around of each operation written out;
    a panic of the Go runtime is an explicit outcome. *)

From Stdlib Require Import ZArith String Ascii List Lia DecimalString.
From Stdlib Require DecimalPos DecimalZ.
From stdpp Require Import base strings gmap list.

Local Open Scope Z_scope.
Local Open Scope string_scope.

(** ** Go runtime: machine integers and panics *)

Module goint.

Definition min_int : Z := - 2 ^ 63.
Definition max_int : Z := 2 ^ 63 - 1.

(** Reduction of a mathematical integer to the value an [int] holds. *)
Definition wrap (z : Z) : Z := (z + 2 ^ 63) mod 2 ^ 64 - 2 ^ 63.

Definition add (a b : Z) : Z := wrap (a + b).

(** [len] of a slice, as an [int]. *)
Definition len {A : Type} (l : list A) : Z := Z.of_nat (List.length l).

(** [%d] of [fmt]: decimal digits, with a sign for negative numbers. *)
Definition itoa (z : Z) : string := NilZero.string_of_int (Z.to_int z).

End goint.

Inductive panic : Type :=
| IndexOutOfRange (i n : Z)
| DivideByZero
| PanicString (msg : string).

(** A computation of the Go program either returns or panics. *)
Inductive outcome (A : Type) : Type :=
| Ret (a : A)
| Panics (p : panic).
Arguments Ret {A} a.
Arguments Panics {A} p.

#[global] Instance outcome_ret : MRet outcome := fun A a => Ret a.
#[global] Instance outcome_bind : MBind outcome := fun A B k m =>
  match m with
  | Ret a => k a
  | Panics p => Panics p
  end.

(** A Go call that returns a value or an error. *)
Inductive result (E A : Type) : Type :=
| Ok (a : A)
| Err (e : E).
Arguments Ok {E A} a.
Arguments Err {E A} e.

(** [a % b] on [int]: truncated remainder, a run-time panic when [b = 0]. *)
Definition int_rem (a b : Z) : outcome Z :=
  if Z.eqb b 0 then Panics DivideByZero else Ret (Z.rem a b).

(** [s[i]] on a slice: a run-time panic outside [0 <= i < len(s)]. *)
Definition index {A : Type} (s : list A) (i : Z) : outcome A :=
  if Z.ltb i 0 then Panics (IndexOutOfRange i (goint.len s))
  else match s !! Z.to_nat i with
       | Some x => Ret x
       | None => Panics (IndexOutOfRange i (goint.len s))
       end.

(** ** models.go *)

Record Flashcard : Type := mkFlashcard {
  ID : Z;
  English : string;
  Chinese : string;
  Pinyin : string
}.

Record Message : Type := mkMessage {
  Role : string;
  Content : string
}.

(** [ChatCompletionsResult]: each choice holds one [Message]. *)
Record ChatCompletionsResult : Type := mkChatCompletionsResult {
  Choices : list Message
}.

(** ** The terminal toolkit (tview, tcell), as far as the program drives it *)

Module tview.

(** The primitive that has the keyboard focus.  With [MainView] as root the
    focus sits on the card's text view; with the new-card form as root it
    sits on the form's input field or on one of its buttons. *)
Inductive Focus : Type :=
| FocusTextView
| FocusForm
| FocusInputField
| FocusButton.

(** The root primitive of the application: the main view, or the new-card
    form together with the text of its input field. *)
Inductive Root : Type :=
| RootMainView
| RootFormFlex (input : string).

Record Application : Type := mkApplication {
  root : Root;
  focus : Focus;
  stopped : bool
}.

(** [Application.SetRoot(MainView, true)]: the focus goes to the item of
    the flex that was added with focus, the card view. *)
Definition SetRootMainView (t : Application) : Application :=
  {| root := RootMainView; focus := FocusTextView; stopped := stopped t |}.

(** [Application.SetRoot(formFlex, true)]: the form delegates the focus to
    its first item, the input field. *)
Definition SetRootFormFlex (input : string) (t : Application) : Application :=
  {| root := RootFormFlex input; focus := FocusInputField; stopped := stopped t |}.

Definition Stop (t : Application) : Application :=
  {| root := root t; focus := focus t; stopped := true |}.

End tview.

Module tcell.

(** Key events of tcell, as [HandleInput] distinguishes them. *)
Inductive EventKey : Type :=
| KeyRight
| KeyRune (r : ascii)
| KeyOther.

End tcell.

(** ** Bytes and UTF-8 (package unicode/utf8) *)

Module utf8.

Definition code (c : ascii) : N := N_of_ascii c.

Definition between (lo hi : N) (c : ascii) : bool :=
  ((lo <=? code c) && (code c <=? hi))%N.

(** A continuation byte, [0x80..0xBF]. *)
Definition cont (c : ascii) : bool := between 128 191 c.

(** Width of the encoding that starts [s], as [DecodeRune] reports it:
    [0] when [s] starts with no valid encoding (Go then yields
    [RuneError] with width 1).  Over-long forms, surrogates and values
    above U+10FFFF are invalid. *)
Definition width (s : string) : nat :=
  match s with
  | EmptyString => 0
  | String c0 s1 =>
    if (code c0 <? 128)%N then 1
    else match s1 with
    | EmptyString => 0
    | String c1 s2 =>
      if between 194 223 c0 then (if cont c1 then 2 else 0)
      else match s2 with
      | EmptyString => 0
      | String c2 s3 =>
        let three :=
          (between 224 224 c0 && between 160 191 c1
           || between 225 236 c0 && cont c1
           || between 237 237 c0 && between 128 159 c1
           || between 238 239 c0 && cont c1) && cont c2 in
        if three then 3
        else match s3 with
        | EmptyString => 0
        | String c3 _ =>
          let four :=
            (between 240 240 c0 && between 144 191 c1
             || between 241 243 c0 && cont c1
             || between 244 244 c0 && between 128 143 c1)
            && cont c2 && cont c3 in
          if four then 4 else 0
        end
      end
    end
  end.

Definition byte (n : N) : ascii := ascii_of_N (n mod 256).

(** The replacement character U+FFFD, encoded. *)
Definition RuneError : string :=
  String (byte 239) (String (byte 191) (String (byte 189) EmptyString)).

(** [EncodeRune]: the UTF-8 encoding of the code point [r]; surrogates
    and values above U+10FFFF are encoded as U+FFFD. *)
Definition EncodeRune (r : N) : string :=
  (if r <? 128 then String (byte r) EmptyString
   else if r <? 2048 then
     String (byte (192 + r / 64)) (String (byte (128 + r mod 64)) EmptyString)
   else if (55296 <=? r) && (r <=? 57343) || (1114111 <? r) then RuneError
   else if r <? 65536 then
     String (byte (224 + r / 4096))
       (String (byte (128 + (r / 64) mod 64))
          (String (byte (128 + r mod 64)) EmptyString))
   else
     String (byte (240 + r / 262144))
       (String (byte (128 + (r / 4096) mod 64))
          (String (byte (128 + (r / 64) mod 64))
             (String (byte (128 + r mod 64)) EmptyString))))%N.

End utf8.

(** The double quote, as a byte and as a one-byte string. *)
Definition dq : ascii := ascii_of_nat 34.
Definition dqs : string := String dq EmptyString.

Definition isc (c d : ascii) : bool := Ascii.eqb c d.

Definition snoc (s : string) (c : ascii) : string := s ++ String c EmptyString.

(** ** Package encoding/json, the part the program uses

    The scanner is the byte-at-a-time state machine of [scanner.go]; next
    to the parse states it keeps the values read so far, so that one pass
    both checks the syntax and yields the value. *)

Module json.

#[local] Set Warnings "-register-all".

Inductive value : Type :=
| Null
| Bool (b : bool)
| Number (lit : string)
| Str (raw : string)
| Array (vs : list value)
| Object (ms : list (string * value)).

Inductive error : Type :=
| SyntaxError
| ErrUnexpectedEOF
| EOF
| UnmarshalTypeError.

(** An entry of the parse stack: what is being read inside the
    innermost open container, with the members or elements completed. *)
Inductive frame : Type :=
| parseObjectKey (ms : list (string * value)) (k : string)
| parseObjectValue (ms : list (string * value)) (k : string)
| parseArrayValue (vs : list value).

Inductive state : Type :=
| stateBeginValue
| stateBeginValueOrEmpty
| stateBeginStringOrEmpty
| stateBeginString
| stateInString (acc : string)
| stateInStringEsc (acc : string)
| stateInStringEscU (n : nat) (acc : string)
| stateNeg (acc : string)
| state1 (acc : string)
| state0 (acc : string)
| stateDot (acc : string)
| stateDot0 (acc : string)
| stateE (acc : string)
| stateESign (acc : string)
| stateE0 (acc : string)
| stateLiteral (rest : string) (v : value)
| stateEndValue
| stateEndTop
| stateError.

Record scanner : Type := mkScanner {
  step : state;
  parseState : list frame;
  top : option value;
  endTop : bool
}.

Inductive code : Type :=
| scanContinue
| scanEndObject
| scanEndArray
| scanEnd
| scanError.

Definition maxNestingDepth : Z := 10000.

Definition reset : scanner :=
  {| step := stateBeginValue; parseState := []; top := None; endTop := false |}.

Definition isSpace (c : ascii) : bool :=
  isc c " " || isc c (ascii_of_nat 9) || isc c (ascii_of_nat 13) || isc c (ascii_of_nat 10).

Definition isDigit (c : ascii) : bool := utf8.between 48 57 c.

Definition isHex (c : ascii) : bool :=
  isDigit c || utf8.between 97 102 c || utf8.between 65 70 c.

Definition goto (st : state) (s : scanner) : scanner :=
  {| step := st; parseState := parseState s; top := top s; endTop := endTop s |}.

(** A value is complete: it becomes the pending key, a member or an
    element of the innermost open container, or the top-level value. *)
Definition store (v : value) (s : scanner) : scanner :=
  match parseState s with
  | [] => {| step := step s; parseState := []; top := Some v; endTop := endTop s |}
  | parseObjectKey ms k :: ps =>
    let k' := match v with Str raw => raw | _ => k end in
    {| step := step s; parseState := parseObjectKey ms k' :: ps;
       top := top s; endTop := endTop s |}
  | parseObjectValue ms k :: ps =>
    {| step := step s; parseState := parseObjectValue (ms ++ [(k, v)])%list k :: ps;
       top := top s; endTop := endTop s |}
  | parseArrayValue vs :: ps =>
    {| step := step s; parseState := parseArrayValue (vs ++ [v])%list :: ps;
       top := top s; endTop := endTop s |}
  end.

Definition pushParseState (f : frame) (st : state) (s : scanner) : code * scanner :=
  let ps := f :: parseState s in
  if (goint.len ps <=? maxNestingDepth)%Z
  then (scanContinue, {| step := st; parseState := ps; top := top s; endTop := endTop s |})
  else (scanError, s).

(** The innermost container is closed and is itself a complete value. *)
Definition popParseState (v : value) (ps : list frame) (s : scanner) : scanner :=
  let s' := store v {| step := step s; parseState := ps; top := top s; endTop := endTop s |} in
  match ps with
  | [] => {| step := stateEndTop; parseState := parseState s'; top := top s'; endTop := true |}
  | _ :: _ => goto stateEndValue s'
  end.

(** [stateEndTop]: the value is complete, and the step says so for
    every byte; a byte that is not blank is an error only for what comes
    after it ([s.error] sets the step to [stateError]). *)
Definition stateEndTop_step (s : scanner) (c : ascii) : code * scanner :=
  (scanEnd, if isSpace c then s else goto stateError s).

Definition stateEndValue_step (s : scanner) (c : ascii) : code * scanner :=
  match parseState s with
  | [] =>
    stateEndTop_step
      {| step := stateEndTop; parseState := []; top := top s; endTop := true |} c
  | f :: ps =>
    if isSpace c then (scanContinue, goto stateEndValue s)
    else match f with
    | parseObjectKey ms k =>
      if isc c ":" then
        (scanContinue,
         {| step := stateBeginValue; parseState := parseObjectValue ms k :: ps;
            top := top s; endTop := endTop s |})
      else (scanError, s)
    | parseObjectValue ms k =>
      if isc c "," then
        (scanContinue,
         {| step := stateBeginString; parseState := parseObjectKey ms EmptyString :: ps;
            top := top s; endTop := endTop s |})
      else if isc c "}" then (scanEndObject, popParseState (Object ms) ps s)
      else (scanError, s)
    | parseArrayValue vs =>
      if isc c "," then (scanContinue, goto stateBeginValue s)
      else if isc c "]" then (scanEndArray, popParseState (Array vs) ps s)
      else (scanError, s)
    end
  end.

Definition stateBeginValue_step (s : scanner) (c : ascii) : code * scanner :=
  if isSpace c then (scanContinue, s)
  else if isc c "{" then
    pushParseState (parseObjectKey [] EmptyString) stateBeginStringOrEmpty s
  else if isc c "[" then pushParseState (parseArrayValue []) stateBeginValueOrEmpty s
  else if isc c dq then (scanContinue, goto (stateInString EmptyString) s)
  else if isc c "-" then (scanContinue, goto (stateNeg "-") s)
  else if isc c "0" then (scanContinue, goto (state0 "0") s)
  else if isc c "t" then (scanContinue, goto (stateLiteral "rue" (Bool true)) s)
  else if isc c "f" then (scanContinue, goto (stateLiteral "alse" (Bool false)) s)
  else if isc c "n" then (scanContinue, goto (stateLiteral "ull" Null) s)
  else if utf8.between 49 57 c then
    (scanContinue, goto (state1 (String c EmptyString)) s)
  else (scanError, s).

Definition stateBeginString_step (s : scanner) (c : ascii) : code * scanner :=
  if isSpace c then (scanContinue, s)
  else if isc c dq then (scanContinue, goto (stateInString EmptyString) s)
  else (scanError, s).

(** The end of a number shows only at the byte after it: the number is
    stored and that byte is handled as the one after a value. *)
Definition endNumber (acc : string) (s : scanner) (c : ascii) : code * scanner :=
  stateEndValue_step (store (Number acc) s) c.

Definition state0_step (acc : string) (s : scanner) (c : ascii) : code * scanner :=
  if isc c "." then (scanContinue, goto (stateDot (snoc acc c)) s)
  else if isc c "e" || isc c "E" then (scanContinue, goto (stateE (snoc acc c)) s)
  else endNumber acc s c.

Definition stateESign_step (acc : string) (s : scanner) (c : ascii) : code * scanner :=
  if isDigit c then (scanContinue, goto (stateE0 (snoc acc c)) s)
  else (scanError, s).

(** One transition of the scanner on the byte [c]. *)
Definition scan (s : scanner) (c : ascii) : code * scanner :=
  match step s with
  | stateBeginValue => stateBeginValue_step s c
  | stateBeginValueOrEmpty =>
    if isSpace c then (scanContinue, s)
    else if isc c "]" then stateEndValue_step s c
    else stateBeginValue_step s c
  | stateBeginStringOrEmpty =>
    if isSpace c then (scanContinue, s)
    else if isc c "}" then
      match parseState s with
      | parseObjectKey ms k :: ps =>
        stateEndValue_step
          {| step := step s; parseState := parseObjectValue ms k :: ps;
             top := top s; endTop := endTop s |} c
      | _ => stateEndValue_step s c
      end
    else stateBeginString_step s c
  | stateBeginString => stateBeginString_step s c
  | stateInString acc =>
    if isc c dq then (scanContinue, goto stateEndValue (store (Str acc) s))
    else if isc c "\" then (scanContinue, goto (stateInStringEsc (snoc acc c)) s)
    else if (utf8.code c <? 32)%N then (scanError, s)
    else (scanContinue, goto (stateInString (snoc acc c)) s)
  | stateInStringEsc acc =>
    if isc c "b" || isc c "f" || isc c "n" || isc c "r" || isc c "t"
       || isc c "\" || isc c "/" || isc c dq
    then (scanContinue, goto (stateInString (snoc acc c)) s)
    else if isc c "u" then (scanContinue, goto (stateInStringEscU 4 (snoc acc c)) s)
    else (scanError, s)
  | stateInStringEscU n acc =>
    if isHex c then
      match n with
      | S (S m) => (scanContinue, goto (stateInStringEscU (S m) (snoc acc c)) s)
      | _ => (scanContinue, goto (stateInString (snoc acc c)) s)
      end
    else (scanError, s)
  | stateNeg acc =>
    if isc c "0" then (scanContinue, goto (state0 (snoc acc c)) s)
    else if utf8.between 49 57 c then (scanContinue, goto (state1 (snoc acc c)) s)
    else (scanError, s)
  | state1 acc =>
    if isDigit c then (scanContinue, goto (state1 (snoc acc c)) s)
    else state0_step acc s c
  | state0 acc => state0_step acc s c
  | stateDot acc =>
    if isDigit c then (scanContinue, goto (stateDot0 (snoc acc c)) s)
    else (scanError, s)
  | stateDot0 acc =>
    if isDigit c then (scanContinue, goto (stateDot0 (snoc acc c)) s)
    else if isc c "e" || isc c "E" then (scanContinue, goto (stateE (snoc acc c)) s)
    else endNumber acc s c
  | stateE acc =>
    if isc c "+" || isc c "-" then (scanContinue, goto (stateESign (snoc acc c)) s)
    else stateESign_step acc s c
  | stateESign acc => stateESign_step acc s c
  | stateE0 acc =>
    if isDigit c then (scanContinue, goto (stateE0 (snoc acc c)) s)
    else endNumber acc s c
  | stateLiteral rest v =>
    match rest with
    | String e EmptyString =>
      if isc c e then (scanContinue, goto stateEndValue (store v s)) else (scanError, s)
    | String e rest' =>
      if isc c e then (scanContinue, goto (stateLiteral rest' v) s) else (scanError, s)
    | EmptyString => (scanError, s)
    end
  | stateEndValue => stateEndValue_step s c
  | stateEndTop => stateEndTop_step s c
  | stateError => (scanError, s)
  end.

(** [checkValid] followed by [scanner.eof]: the whole of [data] is one
    value, with blanks around it at most. *)
Fixpoint checkValid (s : scanner) (data : string) : option scanner :=
  match data with
  | EmptyString => Some s
  | String c data' =>
    match scan s c with
    | (scanError, _) => None
    | (_, s') => checkValid s' data'
    end
  end.

Definition eof (s : scanner) : option value :=
  match step s with
  | stateError => None
  | _ =>
    if endTop s then top s
    else let s' := snd (scan s " ") in
         if endTop s' then top s' else None
  end.

Definition parse (data : string) : option value :=
  match checkValid reset data with
  | Some s => eof s
  | None => None
  end.

(** *** Strings: [unquote] *)

Definition hexval (c : ascii) : N :=
  (if isDigit c then utf8.code c - 48
   else if utf8.between 97 102 c then utf8.code c - 87
   else utf8.code c - 55)%N.

(** The code unit of the escape [\uXXXX] that starts [s], if one does. *)
Definition getu4 (s : string) : option N :=
  match s with
  | String b (String u (String h1 (String h2 (String h3 (String h4 _))))) =>
    if isc b "\" && isc u "u" && isHex h1 && isHex h2 && isHex h3 && isHex h4
    then Some (((hexval h1 * 16 + hexval h2) * 16 + hexval h3) * 16 + hexval h4)%N
    else None
  | _ => None
  end.

Fixpoint dropBytes (n : nat) (s : string) : string :=
  match n, s with
  | S m, String _ s' => dropBytes m s'
  | _, _ => s
  end.

Definition isSurrogate (r : N) : bool := ((55296 <=? r) && (r <? 57344))%N.

(** [utf16.DecodeRune]: the code point of a surrogate pair. *)
Definition decodeSurrogates (r1 : N) (r2 : option N) : option N :=
  match r2 with
  | Some r2 =>
    if ((55296 <=? r1) && (r1 <? 56320) && (56320 <=? r2) && (r2 <? 57344))%N
    then Some ((r1 - 55296) * 1024 + (r2 - 56320) + 65536)%N
    else None
  | None => None
  end.

(** The bytes a string literal denotes, from the text between its
    quotes.  [copy] bytes are still to be taken over as they are (the
    rest of a UTF-8 encoding), [drop] bytes are still to be passed over
    (the rest of an escape).  Bytes that start no valid UTF-8 encoding
    become U+FFFD, as does a surrogate escape without its partner. *)
Fixpoint unquoteFrom (copy drop : nat) (s : string) : option string :=
  match s with
  | EmptyString => Some EmptyString
  | String c rest =>
    match drop, copy with
    | S d, _ => unquoteFrom copy d rest
    | O, S k => String c <$> unquoteFrom k 0 rest
    | O, O =>
      if isc c "\" then
        match rest with
        | EmptyString => None
        | String e _ =>
          if isc e "u" then
            match getu4 s with
            | None => None
            | Some rr =>
              if isSurrogate rr then
                match decodeSurrogates rr (getu4 (dropBytes 6 s)) with
                | Some r => String.append (utf8.EncodeRune r) <$> unquoteFrom 0 11 rest
                | None => String.append utf8.RuneError <$> unquoteFrom 0 5 rest
                end
              else String.append (utf8.EncodeRune rr) <$> unquoteFrom 0 5 rest
            end
          else
            let simple (b : ascii) := String b <$> unquoteFrom 0 1 rest in
            if isc e dq || isc e "\" || isc e "/" then simple e
            else if isc e "b" then simple (ascii_of_nat 8)
            else if isc e "f" then simple (ascii_of_nat 12)
            else if isc e "n" then simple (ascii_of_nat 10)
            else if isc e "r" then simple (ascii_of_nat 13)
            else if isc e "t" then simple (ascii_of_nat 9)
            else None
        end
      else if isc c dq || (utf8.code c <? 32)%N then None
      else if (utf8.code c <? 128)%N then String c <$> unquoteFrom 0 0 rest
      else match utf8.width s with
           | O => String.append utf8.RuneError <$> unquoteFrom 0 0 rest
           | S k => String c <$> unquoteFrom k 0 rest
           end
    end
  end.

Definition unquote (raw : string) : option string := unquoteFrom 0 0 raw.

(** *** Numbers: [strconv.ParseInt(s, 10, 64)] *)

Fixpoint digits (acc : Z) (s : string) : option Z :=
  match s with
  | EmptyString => Some acc
  | String c s' =>
    if isDigit c then digits (10 * acc + Z.of_N (utf8.code c - 48)) s' else None
  end.

Definition ParseInt (s : string) : option Z :=
  let signed (neg : bool) (body : string) :=
    match body with
    | EmptyString => None
    | _ =>
      n ← digits 0 body;
      let z := if neg then - n else n in
      if (goint.min_int <=? z)%Z && (z <=? goint.max_int)%Z then Some z else None
    end in
  match s with
  | String c s' =>
    if isc c "-" then signed true s'
    else if isc c "+" then signed false s'
    else signed false s
  | EmptyString => None
  end.

(** *** Field names: [foldName]

    ASCII letters are compared without case.  Of the other runes only
    U+017F (long s) and U+212A (Kelvin sign) fold to an ASCII letter. *)
Fixpoint foldName (s : string) : string :=
  match s with
  | EmptyString => EmptyString
  | String c s' =>
    if utf8.between 97 122 c then String (utf8.byte (utf8.code c - 32)) (foldName s')
    else match s' with
    | String c1 s'' =>
      if isc c (utf8.byte 197) && isc c1 (utf8.byte 191) then String "S" (foldName s'')
      else match s'' with
      | String c2 s''' =>
        if isc c (utf8.byte 226) && isc c1 (utf8.byte 132) && isc c2 (utf8.byte 170)
        then String "K" (foldName s''')
        else String c (foldName s')
      | EmptyString => String c (foldName s')
      end
    | EmptyString => String c EmptyString
    end
  end.

(** The field a member key selects: the one of that exact name, else the
    first whose name is equal under folding. *)
Definition field (names : list string) (key : string) : option string :=
  match List.find (String.eqb key) names with
  | Some f => Some f
  | None => List.find (fun f => String.eqb (foldName f) (foldName key)) names
  end.

(** *** Decoding into the program's types

    A value is decoded into a variable: what the text does not mention
    keeps its content, [null] leaves a number, string or struct as it
    is, and a value of the wrong kind is skipped; the mismatch is
    remembered (the flag) and returned once the value is done. *)

Definition intoInt (v : value) (cur : Z) : Z * bool :=
  match v with
  | Null => (cur, false)
  | Number lit =>
    match ParseInt lit with
    | Some n => (n, false)
    | None => (cur, true)
    end
  | _ => (cur, true)
  end.

Definition intoString (v : value) (cur : string) : string * bool :=
  match v with
  | Null => (cur, false)
  | Str raw =>
    match unquote raw with
    | Some s => (s, false)
    | None => (cur, true)
    end
  | _ => (cur, true)
  end.

(** Decoding of an object into a struct: the members in order, each
    into the field its key selects; other members are ignored. *)
Definition intoStruct {A : Type} (names : list string)
    (set : string -> value -> A -> A * bool) (v : value) (cur : A) : A * bool :=
  match v with
  | Null => (cur, false)
  | Object ms =>
    fold_left
      (fun (acc : A * bool) (m : string * value) =>
         match unquote (fst m) ≫= field names with
         | Some f => let (a, e) := set f (snd m) (fst acc) in (a, snd acc || e)
         | None => acc
         end)
      ms (cur, false)
  | _ => (cur, true)
  end.

Definition intoFlashcard : value -> Flashcard -> Flashcard * bool :=
  intoStruct ["id"; "en"; "zh"; "pinyin"]
    (fun f v c =>
       if String.eqb f "id" then
         let (x, e) := intoInt v (ID c) in
         (mkFlashcard x (English c) (Chinese c) (Pinyin c), e)
       else if String.eqb f "en" then
         let (x, e) := intoString v (English c) in
         (mkFlashcard (ID c) x (Chinese c) (Pinyin c), e)
       else if String.eqb f "zh" then
         let (x, e) := intoString v (Chinese c) in
         (mkFlashcard (ID c) (English c) x (Pinyin c), e)
       else
         let (x, e) := intoString v (Pinyin c) in
         (mkFlashcard (ID c) (English c) (Chinese c) x, e)).

Definition intoMessage : value -> Message -> Message * bool :=
  intoStruct ["role"; "content"]
    (fun f v m =>
       if String.eqb f "role" then
         let (x, e) := intoString v (Role m) in (mkMessage x (Content m), e)
       else
         let (x, e) := intoString v (Content m) in (mkMessage (Role m) x, e)).

(** An element of [Choices], a struct with the one field [Message]. *)
Definition intoChoice : value -> Message -> Message * bool :=
  intoStruct ["message"] (fun _ v m => intoMessage v m).

Definition zeroMessage : Message := mkMessage EmptyString EmptyString.

(** Elements of an array, each decoded into the element the backing
    array holds at its place, a zero element where it holds none. *)
Fixpoint intoElems (vs : list value) (backing : list Message) : list Message * bool :=
  match vs with
  | [] => ([], false)
  | v :: vs' =>
    let (m, e) := intoChoice v (List.hd zeroMessage backing) in
    let (ms, e') := intoElems vs' (List.tl backing) in
    (m :: ms, e || e')
  end.

(** The slice [Choices] while it is decoded: its elements and the
    elements of its backing array behind them.  An empty array and
    [null] give a fresh slice. *)
Definition intoChoices (v : value) (cur : list Message * list Message)
    : (list Message * list Message) * bool :=
  match v with
  | Null => (([], []), false)
  | Array [] => (([], []), false)
  | Array vs =>
    let backing := (fst cur ++ snd cur)%list in
    let (ms, e) := intoElems vs backing in
    ((ms, List.skipn (List.length vs) backing), e)
  | _ => (cur, true)
  end.

Definition intoResult : value -> list Message * list Message
                        -> (list Message * list Message) * bool :=
  intoStruct ["choices"] (fun _ v cur => intoChoices v cur).

(** The struct [Translate] decodes the message content into. *)
Definition intoTranslation : value -> string * string -> (string * string) * bool :=
  intoStruct ["zh"; "pinyin"]
    (fun f v t =>
       if String.eqb f "zh" then
         let (x, e) := intoString v (fst t) in ((x, snd t), e)
       else
         let (x, e) := intoString v (snd t) in ((fst t, x), e)).

(** [json.Unmarshal(data, &v)] with [v] holding [zero]. *)
Definition Unmarshal {A : Type} (into : value -> A -> A * bool) (zero : A)
    (data : string) : result error A :=
  match parse data with
  | None => Err SyntaxError
  | Some v =>
    let (a, e) := into v zero in
    if e then Err UnmarshalTypeError else Ok a
  end.

Definition UnmarshalResult (data : string) : result error ChatCompletionsResult :=
  match Unmarshal intoResult ([], []) data with
  | Ok (cs, _) => Ok (mkChatCompletionsResult cs)
  | Err e => Err e
  end.

Definition UnmarshalTranslation (data : string) : result error (string * string) :=
  Unmarshal intoTranslation (EmptyString, EmptyString) data.

(** *** The stream decoder ([stream.go])

    A [Decoder] over a file is modelled by the input it has not read
    yet. *)

Fixpoint skipSpace (buf : string) : string :=
  match buf with
  | String c buf' => if isSpace c then skipSpace buf' else buf
  | EmptyString => EmptyString
  end.

(** [Decoder.peek]: the next byte that is not blank, with the decoder
    moved up to it. *)
Definition peek (dec : string) : option ascii * string :=
  match skipSpace dec with
  | String c buf' => (Some c, String c buf')
  | EmptyString => (None, EmptyString)
  end.

(** [Decoder.More]: [err == nil && c != ']' && c != '}']. *)
Definition More (dec : string) : bool * string :=
  match peek dec with
  | (Some c, dec') => (negb (isc c "]") && negb (isc c "}"), dec')
  | (None, dec') => (false, dec')
  end.

Definition nonSpace (buf : string) : bool :=
  match skipSpace buf with
  | EmptyString => false
  | String _ _ => true
  end.

(** [Decoder.readValue]: the bytes of the next value are scanned; the
    value ends with its closing bracket, or before the byte that shows
    the end of a number, string or literal. *)
Fixpoint readValue (s : scanner) (all buf : string) : result error (value * string) :=
  match buf with
  | EmptyString =>
    match scan s " " with
    | (scanEnd, s') =>
      match top s' with
      | Some v => Ok (v, EmptyString)
      | None => Err SyntaxError
      end
    | _ => Err (if nonSpace all then ErrUnexpectedEOF else EOF)
    end
  | String c buf' =>
    match scan s c with
    | (scanEnd, s') =>
      match top s' with
      | Some v => Ok (v, buf)
      | None => Err SyntaxError
      end
    | (scanEndObject, s') | (scanEndArray, s') =>
      match stateEndValue_step s' " ", top s' with
      | (scanEnd, _), Some v => Ok (v, buf')
      | _, _ => readValue s' all buf'
      end
    | (scanError, _) => Err SyntaxError
    | (scanContinue, s') => readValue s' all buf'
    end
  end.

(** [Decoder.Decode(&v)] with [v] holding [zero]: the result and the
    decoder after the call. *)
Definition Decode {A : Type} (into : value -> A -> A * bool) (zero : A)
    (dec : string) : result error A * string :=
  match readValue reset dec dec with
  | Err e => (Err e, dec)
  | Ok (v, dec') =>
    let (a, e) := into v zero in
    (if e then Err UnmarshalTypeError else Ok a, dec')
  end.

Definition zeroFlashcard : Flashcard :=
  mkFlashcard 0 EmptyString EmptyString EmptyString.

Definition DecodeFlashcard : string -> result error Flashcard * string :=
  Decode intoFlashcard zeroFlashcard.

(** *** Encoding ([encode.go]) *)

Definition hex (n : N) : ascii :=
  if (n <? 10)%N then utf8.byte (48 + n) else utf8.byte (87 + n).

(** ASCII bytes that [appendString] copies as they are when it escapes
    for HTML: all from the blank on, but the quote, the backslash,
    the ampersand and the angle brackets. *)
Definition htmlSafe (c : ascii) : bool :=
  utf8.between 32 127 c
  && negb (isc c dq || isc c "\" || isc c "&" || isc c "<" || isc c ">").

(** The text of a string between its quotes.  [copy] and [drop] as in
    [unquoteFrom].  Control bytes are written as escapes (backspace and
    form feed by their two-byte escapes, as Go does from 1.22 on), so
    that the text holds no byte below the blank.  A byte that starts no
    valid UTF-8 encoding is written as the escape of U+FFFD, as
    [encoding/json] does in [appendString]; an encoder that writes the
    three bytes of U+FFFD instead gives a text that decodes to the same
    string. *)
Fixpoint appendStringFrom (copy drop : nat) (s : string) : string :=
  match s with
  | EmptyString => EmptyString
  | String c rest =>
    match drop, copy with
    | S d, _ => appendStringFrom copy d rest
    | O, S k => String c (appendStringFrom k 0 rest)
    | O, O =>
      if (utf8.code c <? 128)%N then
        (if htmlSafe c then String c EmptyString
         else if isc c "\" || isc c dq then String "\" (String c EmptyString)
         else if isc c (ascii_of_nat 8) then "\b"
         else if isc c (ascii_of_nat 12) then "\f"
         else if isc c (ascii_of_nat 10) then "\n"
         else if isc c (ascii_of_nat 13) then "\r"
         else if isc c (ascii_of_nat 9) then "\t"
         else "\u00" ++ String (hex (utf8.code c / 16))
                          (String (hex (utf8.code c mod 16)) EmptyString))
        ++ appendStringFrom 0 0 rest
      else match utf8.width s with
           | O => "\ufffd" ++ appendStringFrom 0 0 rest
           | S k =>
             match rest with
             | String c1 (String c2 _) =>
               if isc c (utf8.byte 226) && isc c1 (utf8.byte 128)
                  && (isc c2 (utf8.byte 168) || isc c2 (utf8.byte 169))
               then "\u202" ++ String (hex (utf8.code c2 mod 16)) EmptyString
                    ++ appendStringFrom 0 2 rest
               else String c (appendStringFrom k 0 rest)
             | _ => String c (appendStringFrom k 0 rest)
             end
           end
    end
  end.

Definition appendString (s : string) : string :=
  dqs ++ appendStringFrom 0 0 s ++ dqs.

Definition member (name : string) (text : string) : string :=
  dqs ++ name ++ dqs ++ ":" ++ text.

(** [json.Marshal] of a [Flashcard]: the fields in their order, under
    the names of their tags.  No value of this type fails to encode. *)
Definition MarshalFlashcard (c : Flashcard) : result error string :=
  Ok ("{" ++ member "id" (goint.itoa (ID c))
      ++ "," ++ member "en" (appendString (English c))
      ++ "," ++ member "zh" (appendString (Chinese c))
      ++ "," ++ member "pinyin" (appendString (Pinyin c)) ++ "}").

End json.

(** ** Package os: regular files, as far as the program touches them *)

Module os.

Inductive error : Type :=
| ErrNotExist
| ErrPermission
| ErrNoSpace.

(** A regular file: whether the process may read it, may write it, and
    its content. *)
Record file : Type := mkFile {
  readable : bool;
  writable : bool;
  data : string
}.

(** The file system: the files by path, and the number of bytes that
    can still be written to the device. *)
Record FS : Type := mkFS {
  files : gmap string file;
  free : nat
}.

(** [os.Open(name)] followed by reading the file to its end.  The files
    are regular files: once a file is open, reading it does not fail, so
    that the errors of the decoder are those of the content alone. *)
Definition Open (name : string) (fs : FS) : result error string :=
  match files fs !! name with
  | None => Err ErrNotExist
  | Some f => if readable f then Ok (data f) else Err ErrPermission
  end.

(** [os.OpenFile(name, O_APPEND|O_CREATE|O_WRONLY, 0644)]: a missing
    file is created empty; the handle is the path. *)
Definition OpenFileAppend (name : string) (fs : FS) : result error string * FS :=
  match files fs !! name with
  | None =>
    (Ok name, {| files := <[name := mkFile true true EmptyString]> (files fs);
                 free := free fs |})
  | Some f => if writable f then (Ok name, fs) else (Err ErrPermission, fs)
  end.

(** The first [n] bytes of [s]. *)
Fixpoint take (n : nat) (s : string) : string :=
  match n, s with
  | S m, String c s' => String c (take m s')
  | _, _ => EmptyString
  end.

(** [file.Write(b)] on a handle opened for appending: the bytes go
    behind the content.  When the device has not room for all of them,
    the bytes that fit are written and the call fails. *)
Definition Write (handle : string) (b : string) (fs : FS) : result error nat * FS :=
  match files fs !! handle with
  | None => (Err ErrNotExist, fs)
  | Some f =>
    let n := String.length b in
    if (n <=? free fs)%nat then
      (Ok n, {| files := <[handle := mkFile (readable f) (writable f) (data f ++ b)]> (files fs);
                free := (free fs - n)%nat |})
    else
      (Err ErrNoSpace,
       {| files := <[handle := mkFile (readable f) (writable f)
                                 (data f ++ take (free fs) b)]> (files fs);
          free := 0%nat |})
  end.

End os.

(** ** Errors of the program

    The values of Go's [error] that the program meets: those of the
    packages it calls and the two it makes itself in [Translate]. *)
Inductive error : Type :=
| JSONError (e : json.error)
| OSError (e : os.error)
| TransportError
| NoResponse (body : string)
| NoTranslation.

(** What the translation service does with a request: the exchange fails
    ([http.Client.Do] or the reading of the body), or a body arrives.
    [Translate] does not look at the status of the response. *)
Inductive reply : Type :=
| Failed
| Body (b : string).

(** ** ai.go *)

Record AI : Type := mkAI {
  APIKey : string;
  Model : string
}.

(** The service, as the program sees it: the reply to the one request
    that [Translate] builds from the key, the model and the sentence. *)
Definition Service : Type := AI -> string -> reply.

Definition NewAI (apiKey model : string) : outcome AI :=
  if String.eqb apiKey EmptyString || String.eqb model EmptyString
  then Panics (PanicString "OpenAI API key and model must be provided")
  else Ret (mkAI apiKey model).

(** [Translate]: the request is built from constants and strings, so
    neither its encoding nor [http.NewRequest] fails; what is left is the
    exchange and the two decodings. *)
Definition Translate (service : Service) (ai : AI) (sentence : string)
    : result error (string * string) :=
  match service ai sentence with
  | Failed => Err TransportError
  | Body b =>
    match json.UnmarshalResult b with
    | Err e => Err (JSONError e)
    | Ok res =>
      match Choices res with
      | [] => Err (NoResponse b)
      | choice :: _ =>
        match json.UnmarshalTranslation (Content choice) with
        | Err e => Err (JSONError e)
        | Ok (zh, pinyin) =>
          if String.eqb zh EmptyString || String.eqb pinyin EmptyString
          then Err NoTranslation
          else Ok (zh, pinyin)
        end
      end
    end
  end.

(** ** app.go *)

(** What the program has written to standard output, newest last: the
    lines of [fmt.Println(msg, err)] and of [fmt.Println(msg)]. *)
Definition Stdout : Type := list (string * option error).

(** The world around the program: the file system, the translation
    service and the terminal's output. *)
Record World : Type := mkWorld {
  fs : os.FS;
  service : Service;
  stdout : Stdout
}.

(** The application state.  [CardView] is the text the card view shows;
    [MainView] is the fixed layout around it. *)
Record App : Type := mkApp {
  ai : AI;
  Deck : list Flashcard;
  CurrentCardIdx : Z;
  Revealed : bool;
  Application : tview.Application;
  CardView : string;
  FlashcardsFile : string
}.

Definition nl : string := String (ascii_of_nat 10) EmptyString.

Definition NewApp (apiKey model : string) : outcome App :=
  a ← NewAI apiKey model;
  mret {| ai := a; Deck := []; CurrentCardIdx := 0; Revealed := false;
          Application := tview.mkApplication tview.RootMainView tview.FocusTextView false;
          CardView := EmptyString; FlashcardsFile := EmptyString |}.

Definition withDeck (d : list Flashcard) (a : App) : App :=
  {| ai := ai a; Deck := d; CurrentCardIdx := CurrentCardIdx a; Revealed := Revealed a;
     Application := Application a; CardView := CardView a;
     FlashcardsFile := FlashcardsFile a |}.

Definition withSession (i : Z) (r : bool) (a : App) : App :=
  {| ai := ai a; Deck := Deck a; CurrentCardIdx := i; Revealed := r;
     Application := Application a; CardView := CardView a;
     FlashcardsFile := FlashcardsFile a |}.

Definition withApplication (t : tview.Application) (a : App) : App :=
  {| ai := ai a; Deck := Deck a; CurrentCardIdx := CurrentCardIdx a; Revealed := Revealed a;
     Application := t; CardView := CardView a; FlashcardsFile := FlashcardsFile a |}.

Definition SetText (text : string) (a : App) : App :=
  {| ai := ai a; Deck := Deck a; CurrentCardIdx := CurrentCardIdx a; Revealed := Revealed a;
     Application := Application a; CardView := text; FlashcardsFile := FlashcardsFile a |}.

Definition withFlashcardsFile (f : string) (a : App) : App :=
  {| ai := ai a; Deck := Deck a; CurrentCardIdx := CurrentCardIdx a; Revealed := Revealed a;
     Application := Application a; CardView := CardView a; FlashcardsFile := f |}.

Definition Println (msg : string) (e : option error) (w : World) : World :=
  {| fs := fs w; service := service w; stdout := (stdout w ++ [(msg, e)])%list |}.

Definition withFS (f : os.FS) (w : World) : World :=
  {| fs := f; service := service w; stdout := stdout w |}.

(** The loop of [LoadDeck]: [for decoder.More() { decoder.Decode(&card) }].
    [fuel] bounds the number of iterations; [None] when it runs out. *)
Fixpoint decodeCards (fuel : nat) (dec : string) (deck : list Flashcard)
    : option (list Flashcard * option error) :=
  match fuel with
  | O => None
  | S fuel' =>
    let (more, dec1) := json.More dec in
    if more then
      match json.DecodeFlashcard dec1 with
      | (Err e, _) => Some (deck, Some (JSONError e))
      | (Ok card, dec2) => decodeCards fuel' dec2 (deck ++ [card])%list
      end
    else Some (deck, None)
  end.

(** [LoadDeck]: the state after the call and the error returned ([None]
    for [nil]).  As many iterations as the file has bytes, and one more,
    are allowed for the loop. *)
Definition LoadDeck (filename : string) (a : App) (w : World)
    : option (App * option error) :=
  let a := withFlashcardsFile filename a in
  match os.Open filename (fs w) with
  | Err e => Some (a, Some (OSError e))
  | Ok content =>
    match decodeCards (S (String.length content)) content (Deck a) with
    | None => None
    | Some (deck, err) => Some (withDeck deck a, err)
    end
  end.

(** The text of the card view for a card, as [UpdateCardView] builds it. *)
Definition cardText (i : Z) (n : Z) (revealed : bool) (card : Flashcard) : string :=
  nl ++ nl ++ nl
  ++ ("Card " ++ goint.itoa (goint.add i 1) ++ "/" ++ goint.itoa n
      ++ " (ID: " ++ goint.itoa (ID card) ++ ")" ++ nl ++ nl)
  ++ ("[::b]English:[::-]" ++ nl)
  ++ ("[cyan]" ++ English card ++ "[white]" ++ nl ++ nl)
  ++ (if revealed then
        ("[::b]Chinese:[::-]" ++ nl)
        ++ ("[yellow]" ++ Chinese card ++ "[white]" ++ nl ++ nl)
        ++ ("[::b]Pinyin:[::-]" ++ nl)
        ++ ("[green]" ++ Pinyin card ++ "[white]" ++ nl)
      else EmptyString)
  ++ (nl ++ "─────────────────────────" ++ nl)
  ++ (nl ++ "Controls:" ++ nl)
  ++ "→: Reveal/Next Card  |  n: New Card  |  q: Quit".

Definition UpdateCardView (a : App) : outcome App :=
  if (goint.len (Deck a) =? 0)%Z then mret (SetText "No cards in deck!" a)
  else
    card ← index (Deck a) (CurrentCardIdx a);
    mret (SetText (cardText (CurrentCardIdx a) (goint.len (Deck a)) (Revealed a) card) a).

Definition stop (a : App) : App := withApplication (tview.Stop (Application a)) a.

(** [SaveNewCard]: the card is translated, appended to the deck, then
    appended to the file; each failure stops the application and prints
    the error. *)
Definition SaveNewCard (englishText : string) (a : App) (w : World)
    : outcome (App * World) :=
  match Translate (service w) (ai a) englishText with
  | Err err => mret (stop a, Println "Error translating text:" (Some err) w)
  | Ok (zh, pinyin) =>
    let newCard :=
      {| ID := goint.add (goint.len (Deck a)) 1; English := englishText;
         Chinese := zh; Pinyin := pinyin |} in
    let a := withDeck (Deck a ++ [newCard])%list a in
    match os.OpenFileAppend (FlashcardsFile a) (fs w) with
    | (Err err, fs1) =>
      mret (stop a,
            Println "Error opening flashcards file:" (Some (OSError err)) (withFS fs1 w))
    | (Ok file, fs1) =>
      match json.MarshalFlashcard newCard with
      | Err err =>
        mret (stop a,
              Println "Error marshaling new card:" (Some (JSONError err)) (withFS fs1 w))
      | Ok cardJSON =>
        match os.Write file (cardJSON ++ nl) fs1 with
        | (Err err, fs2) =>
          mret (stop a,
                Println "Error writing new card to file:" (Some (OSError err))
                  (withFS fs2 w))
        | (Ok _, fs2) =>
          a' ← UpdateCardView (withApplication (tview.SetRootMainView (Application a)) a);
          mret (a', withFS fs2 w)
        end
      end
    end
  end.

Definition SetupUI (a : App) : outcome App := UpdateCardView a.

(** [ShowNewCardDialog]: a new form with an empty input field becomes
    the root. *)
Definition ShowNewCardDialog (a : App) : App :=
  withApplication (tview.SetRootFormFlex EmptyString (Application a)) a.

(** The form's [Save] button: [SaveNewCard(englishInput.GetText())]. *)
Definition saveButton (a : App) (w : World) : outcome (App * World) :=
  match tview.root (Application a) with
  | tview.RootFormFlex input => SaveNewCard input a w
  | tview.RootMainView => mret (a, w)
  end.

(** The form's [Cancel] button. *)
Definition cancelButton (a : App) : App :=
  withApplication (tview.SetRootMainView (Application a)) a.

(** [HandleInput]: the state after the event.  Nothing is done while the
    form or its input field has the focus. *)
Definition HandleInput (event : tcell.EventKey) (a : App) : outcome App :=
  match tview.focus (Application a) with
  | tview.FocusForm | tview.FocusInputField => mret a
  | _ =>
    match event with
    | tcell.KeyRight =>
      a1 ← (if negb (Revealed a) then mret (withSession (CurrentCardIdx a) true a)
            else
              i ← int_rem (goint.add (CurrentCardIdx a) 1) (goint.len (Deck a));
              mret (withSession i false a));
      UpdateCardView a1
    | tcell.KeyRune r =>
      if isc r "q" then mret (stop a)
      else if isc r "n" then mret (ShowNewCardDialog a)
      else mret a
    | tcell.KeyOther => mret a
    end
  end.

(** ** main.go *)

(** How [main] ends before the event loop: with an exit status, or with
    the application ready to run. *)
Inductive started : Type :=
| Exit (status : Z)
| Running (a : App).

(** [main] up to [Run]: [apiKey], [filePath] and [model] are the values
    of the flags, [env] that of [OPENAI_API_KEY]. *)
Definition main (apiKey env filePath model : string) (w : World)
    : option (outcome (started * World)) :=
  let apiKey := if String.eqb apiKey EmptyString then env else apiKey in
  if String.eqb apiKey EmptyString
  then Some (mret (Exit 1, Println "Please provide an API key" None w))
  else match NewApp apiKey model with
  | Panics p => Some (Panics p)
  | Ret app =>
    match LoadDeck filePath app w with
    | None => None
    | Some (app, Some err) => Some (mret (Exit 1, Println "Error loading deck:" (Some err) w))
    | Some (app, None) =>
      Some (app ← SetupUI app;
            mret (Running (withApplication (tview.SetRootMainView (Application app)) app), w))
    end
  end.

(** ** The session: browsing and the [advance] transition *)

(** [Browsing]: the main view is the root and the card view has the
    focus, so that [HandleInput] acts on the keys. *)
Definition Browsing (a : App) : Prop :=
  tview.root (Application a) = tview.RootMainView
  /\ tview.focus (Application a) = tview.FocusTextView.

(** The invariant of the session state over a deck that is not empty. *)
Definition validIndex (a : App) : Prop :=
  0 <= CurrentCardIdx a < goint.len (Deck a) /\ goint.len (Deck a) <= goint.max_int.

(** The transition [advance]: the right-arrow key. *)
Definition advance (a : App) : outcome App := HandleInput tcell.KeyRight a.

Fixpoint advances (n : nat) (a : App) : outcome App :=
  match n with
  | O => mret a
  | S n' => a' ← advance a; advances n' a'
  end.

Definition session (a : App) : Z * bool := (CurrentCardIdx a, Revealed a).

(** ** Text and files: what the properties speak about *)

(** [s] occurs in [t]. *)
Definition contains (s t : string) : Prop :=
  exists pre post : string, t = pre ++ s ++ post.

(** The number of newline bytes of a text: its number of lines, when
    every line is ended by a newline. *)
Fixpoint lineCount (s : string) : nat :=
  match s with
  | EmptyString => 0
  | String c s' => if isc c (ascii_of_nat 10) then S (lineCount s') else lineCount s'
  end.

(** The lines of a text that are ended by a newline, in order, and the
    unfinished line behind them. *)
Fixpoint splitLines (cur : string) (s : string) : list string * string :=
  match s with
  | EmptyString => ([], cur)
  | String c s' =>
    if isc c (ascii_of_nat 10)
    then let (ls, r) := splitLines EmptyString s' in (cur :: ls, r)
    else splitLines (snoc cur c) s'
  end.

Definition lines (s : string) : list string := fst (splitLines EmptyString s).

(** The unfinished line at the end of a text. *)
Definition pending (s : string) : string := snd (splitLines EmptyString s).

(** All lines of a text: those ended by a newline, and the unfinished
    line behind them if there is one. *)
Definition textLines (s : string) : list string :=
  (lines s ++ match pending s with
              | EmptyString => []
              | String c p => [String c p]
              end)%list.

(** The next [k] bytes of [s], as far as [s] reaches, are from [0x80] on. *)
Fixpoint highPrefix (k : nat) (s : string) : Prop :=
  match k, s with
  | S k', String c s' => (utf8.code c <? 128)%N = false /\ highPrefix k' s'
  | _, _ => True
  end.

(** The decoder, standing at [dec], finds and decodes the cards [cards]
    one after the other and then stands at [dec']. *)
Inductive reads : string -> list Flashcard -> string -> Prop :=
| reads_done (dec : string) : reads dec [] dec
| reads_card (dec dec1 dec2 dec3 : string) (card : Flashcard) (cards : list Flashcard) :
    json.More dec = (true, dec1) ->
    json.DecodeFlashcard dec1 = (Ok card, dec2) ->
    reads dec2 cards dec3 ->
    reads dec (card :: cards) dec3.

(** The content of the file at [path]; a missing file has none. *)
Definition content (path : string) (f : os.FS) : string :=
  match os.files f !! path with
  | Some x => os.data x
  | None => EmptyString
  end.

(** The card that [SaveNewCard] makes over a deck. *)
Definition newCardOver (deck : list Flashcard) (en zh pinyin : string) : Flashcard :=
  {| ID := goint.add (goint.len deck) 1; English := en; Chinese := zh; Pinyin := pinyin |}.

(** The file can take [text] at its end: it is missing or may be
    written, and the device has room. *)
Definition appendable (path text : string) (f : os.FS) : Prop :=
  (forall x, os.files f !! path = Some x -> os.writable x = true)
  /\ (String.length text <= os.free f)%nat.

(** ** Sample data *)

Definition dog : Flashcard := mkFlashcard 1 "Dog" "狗" "gǒu".
Definition cat : Flashcard := mkFlashcard 2 "Cat" "猫" "māo".

(** The encoding of a card, and its line in the record file. *)
Definition recordJSON (c : Flashcard) : string :=
  match json.MarshalFlashcard c with
  | Ok s => s
  | Err _ => EmptyString
  end.

Definition recordLine (c : Flashcard) : string := recordJSON c ++ nl.

Definition sampleFile : string := recordLine dog ++ recordLine cat.

(** A file whose second line is a lone closing brace. *)
Definition braceFile : string := recordLine dog ++ "}" ++ nl ++ recordLine cat.

Definition sampleApp : App :=
  {| ai := mkAI "key" "gpt-4o-mini"; Deck := [dog; cat]; CurrentCardIdx := 0;
     Revealed := false;
     Application := tview.mkApplication tview.RootMainView tview.FocusTextView false;
     CardView := cardText 0 2 false dog; FlashcardsFile := "flashcards.jsonl" |}.

(** The session after the first card was revealed and the new-card form
    was opened and filled in. *)
Definition editingApp : App :=
  withApplication
    (tview.SetRootFormFlex "Hello" (Application sampleApp))
    (SetText (cardText 0 2 true dog) (withSession 0 true sampleApp)).

Definition emptyApp : App := withDeck [] (SetText "No cards in deck!" sampleApp).

(** The application as [NewApp] makes it, before the deck is loaded. *)
Definition freshApp : App :=
  {| ai := mkAI "key" "gpt-4o-mini"; Deck := []; CurrentCardIdx := 0; Revealed := false;
     Application := tview.mkApplication tview.RootMainView tview.FocusTextView false;
     CardView := EmptyString; FlashcardsFile := EmptyString |}.

(** A reply with one choice, whose content is the object with the given
    translation and pronunciation. *)
Definition translationJSON (zh pinyin : string) : string :=
  "{" ++ json.member "zh" (json.appendString zh) ++ ","
  ++ json.member "pinyin" (json.appendString pinyin) ++ "}".

Definition bodyWith (zh pinyin : string) : string :=
  "{" ++ json.member "choices"
    ("[{" ++ json.member "message"
       ("{" ++ json.member "role" (json.appendString "assistant") ++ ","
        ++ json.member "content" (json.appendString (translationJSON zh pinyin))
        ++ "}") ++ "}]") ++ "}".

Definition replyWith (zh pinyin : string) : reply := Body (bodyWith zh pinyin).

(** A reply without choices. *)
Definition bodyNoChoices : string := "{" ++ json.member "choices" "[]" ++ "}".

Definition replyNoChoices : reply := Body bodyNoChoices.

Definition sampleWorld (text : string) (room : nat) (r : reply) : World :=
  {| fs := os.mkFS (<["flashcards.jsonl" := os.mkFile true true text]> ∅) room;
     service := fun _ _ => r;
     stdout := [] |}.

(** ** The state between events *)

(** [Editing]: the new-card form is the root and its input field has
    the focus. *)
Definition Editing (a : App) : Prop :=
  (exists input, tview.root (Application a) = tview.RootFormFlex input)
  /\ tview.focus (Application a) = tview.FocusInputField.

(** The card view shows the session as it is: rendering again changes
    nothing. *)
Definition inSync (a : App) : Prop := UpdateCardView a = Ret a.

(** A run of key events through [HandleInput]. *)
Fixpoint HandleInputs (events : list tcell.EventKey) (a : App) : outcome App :=
  match events with
  | [] => mret a
  | event :: events' => a' ← HandleInput event a; HandleInputs events' a'
  end.

(** The cards of a deck carry the identifiers 1, 2, ... in order. *)
Definition sequentialIDs (deck : list Flashcard) : Prop :=
  forall (i : nat) (c : Flashcard), deck !! i = Some c -> ID c = (Z.of_nat i + 1)%Z.

(** A text of blanks only. *)
Definition blank (s : string) : Prop := json.nonSpace s = false.

(** The record file holds the lines of the deck, and nothing else. *)
Fixpoint recordLines (deck : list Flashcard) : string :=
  match deck with
  | [] => EmptyString
  | c :: deck' => recordLine c ++ recordLines deck'
  end.

Definition persisted (a : App) (w : World) : Prop :=
  content (FlashcardsFile a) (fs w) = recordLines (Deck a).

(** The key [main] works with: the flag, or the environment's when the
    flag is empty. *)
Definition effectiveKey (apiKey env : string) : string :=
  if String.eqb apiKey EmptyString then env else apiKey.

(** ** Cards as the record file gives them back *)

(** A text as decoding gives it after encoding: every byte that starts
    no valid UTF-8 encoding has become U+FFFD.  [copy] bytes are still to
    be taken over as the rest of an encoding. *)
Fixpoint sanitizeFrom (copy : nat) (s : string) : string :=
  match s with
  | EmptyString => EmptyString
  | String c rest =>
    match copy with
    | S k => String c (sanitizeFrom k rest)
    | O =>
      if (utf8.code c <? 128)%N then String c (sanitizeFrom 0 rest)
      else match utf8.width s with
           | O => utf8.RuneError ++ sanitizeFrom 0 rest
           | S k => String c (sanitizeFrom k rest)
           end
    end
  end.

Definition sanitize (s : string) : string := sanitizeFrom 0 s.

(** [utf8.ValidString]: every byte starts an encoding or belongs to
    one, as [utf8.width] sees it. *)
Fixpoint validFrom (copy : nat) (s : string) : bool :=
  match s with
  | EmptyString => true
  | String c rest =>
    match copy with
    | S k => validFrom k rest
    | O =>
      if (utf8.code c <? 128)%N then validFrom 0 rest
      else match utf8.width s with
           | O => false
           | S k => validFrom k rest
           end
    end
  end.

Definition ValidString (s : string) : bool := validFrom 0 s.

Definition sanitizeCard (c : Flashcard) : Flashcard :=
  {| ID := ID c; English := sanitize (English c); Chinese := sanitize (Chinese c);
     Pinyin := sanitize (Pinyin c) |}.

(** A card that the record file gives back as it is: its identifier is
    an [int] and its texts are valid UTF-8. *)
Definition storable (c : Flashcard) : Prop :=
  (goint.min_int <= ID c <= goint.max_int)%Z
  /\ ValidString (English c) = true /\ ValidString (Chinese c) = true
  /\ ValidString (Pinyin c) = true.

(** The scanner passes over [text] inside of a value: no byte of it
    ends the value or is refused. *)
Fixpoint steps (s : json.scanner) (text : string) : option json.scanner :=
  match text with
  | EmptyString => Some s
  | String c text' =>
    match json.scan s c with
    | (json.scanContinue, s') => steps s' text'
    | _ => None
    end
  end.

(** The scanner inside the string that starts [acc], and the scanner
    inside an object, in the frame [f] and about to do [st]. *)
Definition inString (acc : string) (s : json.scanner) : json.scanner :=
  json.goto (json.stateInString acc) s.

Definition inObject (st : json.state) (f : json.frame) : json.scanner :=
  {| json.step := st; json.parseState := [f]; json.top := None; json.endTop := false |}.

(** The value that the encoding of a card denotes. *)
Definition cardValue (c : Flashcard) : json.value :=
  json.Object
    [("id", json.Number (goint.itoa (ID c)));
     ("en", json.Str (json.appendStringFrom 0 0 (English c)));
     ("zh", json.Str (json.appendStringFrom 0 0 (Chinese c)));
     ("pinyin", json.Str (json.appendStringFrom 0 0 (Pinyin c)))].

(** ** Sample encodings, written out *)

(** The card of the text [Hello], as the third card of a deck, and its
    encoding written out. *)
Definition hello : Flashcard := mkFlashcard 3 "Hello" "你好" "Nǐ hǎo".

Definition helloJSON : string :=
  "{" ++ dqs ++ "id" ++ dqs ++ ":3,"
  ++ dqs ++ "en" ++ dqs ++ ":" ++ dqs ++ "Hello" ++ dqs ++ ","
  ++ dqs ++ "zh" ++ dqs ++ ":" ++ dqs ++ "你好" ++ dqs ++ ","
  ++ dqs ++ "pinyin" ++ dqs ++ ":" ++ dqs ++ "Nǐ hǎo" ++ dqs ++ "}".

(** The encodings of the two sample cards written out, and a record file
    whose last record is not ended by a newline. *)
Definition dogJSON : string :=
  "{" ++ dqs ++ "id" ++ dqs ++ ":1,"
  ++ dqs ++ "en" ++ dqs ++ ":" ++ dqs ++ "Dog" ++ dqs ++ ","
  ++ dqs ++ "zh" ++ dqs ++ ":" ++ dqs ++ "狗" ++ dqs ++ ","
  ++ dqs ++ "pinyin" ++ dqs ++ ":" ++ dqs ++ "gǒu" ++ dqs ++ "}".

Definition catJSON : string :=
  "{" ++ dqs ++ "id" ++ dqs ++ ":2,"
  ++ dqs ++ "en" ++ dqs ++ ":" ++ dqs ++ "Cat" ++ dqs ++ ","
  ++ dqs ++ "zh" ++ dqs ++ ":" ++ dqs ++ "猫" ++ dqs ++ ","
  ++ dqs ++ "pinyin" ++ dqs ++ ":" ++ dqs ++ "māo" ++ dqs ++ "}".

Definition openFile : string := dogJSON ++ nl ++ catJSON.

(** * Properties *)

Local Open Scope Z_scope.
#[local] Arguments String.append !s1 s2 : simpl nomatch.
#[local] Arguments json.MarshalFlashcard : simpl never.

(** ** Machine integers and slices *)

Lemma wrap_small (z : Z) :
  goint.min_int <= z <= goint.max_int -> goint.wrap z = z.
Proof.
  unfold goint.wrap, goint.min_int, goint.max_int. intros H.
  rewrite Z.mod_small by lia. lia.
Qed.

Lemma index_in_range {A : Type} (s : list A) (i : Z) :
  0 <= i < goint.len s -> exists x, index s i = Ret x /\ s !! Z.to_nat i = Some x.
Proof.
  unfold goint.len. intros H. unfold index.
  destruct (Z.ltb_spec i 0) as [Hlt | _]; [lia |].
  destruct (lookup_lt_is_Some_2 s (Z.to_nat i)) as [x Hx]; [lia |].
  exists x. now rewrite Hx.
Qed.

Lemma index_empty {A : Type} (i : Z) : exists p, index (@nil A) i = Panics p.
Proof.
  unfold index. destruct (i <? 0); simpl; eauto.
Qed.

(** ** Advancing through the deck *)

Lemma UpdateCardView_valid (a : App) :
  0 <= CurrentCardIdx a < goint.len (Deck a) ->
  exists text, UpdateCardView a = Ret (SetText text a).
Proof.
  intros H. unfold UpdateCardView.
  destruct (Z.eqb_spec (goint.len (Deck a)) 0) as [E | _]; [lia |].
  destruct (index_in_range (Deck a) (CurrentCardIdx a) H) as (card & -> & _).
  simpl. eauto.
Qed.

(** One step from a concealed card reveals it in place. *)
Lemma advance_reveal (a : App) :
  Browsing a -> validIndex a -> Revealed a = false ->
  exists text,
    advance a = Ret (SetText text (withSession (CurrentCardIdx a) true a)).
Proof.
  intros [_ Hf] [Hi _] Hr. unfold advance, HandleInput. rewrite Hf, Hr. simpl.
  apply (UpdateCardView_valid (withSession (CurrentCardIdx a) true a)). exact Hi.
Qed.

(** One step from a revealed card conceals the next one, cyclically. *)
Lemma advance_next (a : App) :
  Browsing a -> validIndex a -> Revealed a = true ->
  exists text,
    advance a =
    Ret (SetText text
           (withSession ((CurrentCardIdx a + 1) mod goint.len (Deck a)) false a)).
Proof.
  intros [_ Hf] [Hi Hm] Hr. unfold advance, HandleInput. rewrite Hf, Hr. simpl.
  unfold int_rem, goint.add.
  destruct (Z.eqb_spec (goint.len (Deck a)) 0) as [E | _]; [lia |].
  rewrite wrap_small by (unfold goint.min_int, goint.max_int in *; lia).
  rewrite Z.rem_mod_nonneg by lia. simpl.
  apply (UpdateCardView_valid
           (withSession ((CurrentCardIdx a + 1) mod goint.len (Deck a)) false a)).
  simpl. apply Z.mod_pos_bound. lia.
Qed.

Lemma advances_app (n m : nat) (a : App) :
  advances (n + m) a = (a' ← advances n a; advances m a').
Proof.
  revert a. induction n as [| n IH]; intros a; simpl; [reflexivity |].
  destruct (advance a) as [a1 | p]; simpl; [apply IH | reflexivity].
Qed.

(** Two steps move to the next card and leave the reveal flag as it was. *)
Lemma advance_twice (a : App) :
  Browsing a -> validIndex a ->
  exists text,
    advances 2 a =
    Ret (SetText text
           (withSession ((CurrentCardIdx a + 1) mod goint.len (Deck a)) (Revealed a) a)).
Proof.
  intros Hb Hv. pose proof Hv as [Hi Hm].
  assert (Hn : 0 <= (CurrentCardIdx a + 1) mod goint.len (Deck a) < goint.len (Deck a))
    by (apply Z.mod_pos_bound; lia).
  destruct (Revealed a) eqn:Hr; simpl.
  - destruct (advance_next a Hb Hv Hr) as [t1 ->]. simpl.
    match goal with |- context [advance ?b] => set (a1 := b) end.
    destruct (advance_reveal a1) as [t2 E]; [exact Hb | split; assumption | reflexivity |].
    rewrite E. simpl. now exists t2.
  - destruct (advance_reveal a Hb Hv Hr) as [t1 ->]. simpl.
    match goal with |- context [advance ?b] => set (a1 := b) end.
    destruct (advance_next a1) as [t2 E]; [exact Hb | exact Hv | reflexivity |].
    rewrite E. simpl. now exists t2.
Qed.

(** [2 * k] steps move [k] cards on, cyclically. *)
Lemma advances_even (k : nat) (a : App) :
  Browsing a -> validIndex a ->
  exists a',
    advances (2 * k) a = Ret a'
    /\ Deck a' = Deck a /\ Application a' = Application a
    /\ Revealed a' = Revealed a
    /\ CurrentCardIdx a' = (CurrentCardIdx a + Z.of_nat k) mod goint.len (Deck a).
Proof.
  revert a. induction k as [| k IH]; intros a Hb Hv.
  - exists a. simpl. repeat split; try reflexivity.
    destruct Hv as [Hi _]. rewrite Z.add_0_r, Z.mod_small by lia. reflexivity.
  - replace (2 * S k)%nat with (2 + 2 * k)%nat by lia.
    rewrite advances_app.
    destruct (advance_twice a Hb Hv) as [t ->].
    match goal with |- context [Ret ?b] => set (a1 := b) end.
    pose proof Hv as [Hi Hm].
    destruct (IH a1) as (a' & E & Hd & Ha & Hr & Hc).
    + exact Hb.
    + split; [| exact Hm]. simpl. apply Z.mod_pos_bound. lia.
    + exists a'. split; [exact E |]. repeat split; try assumption.
      rewrite Hc. simpl. rewrite Zplus_mod_idemp_l. f_equal. lia.
Qed.

(** C1. For a deck of [N > 0] cards and a valid index, while browsing:
    [advance] from a concealed card reveals it at the same index;
    [advance] from the revealed card at index [i] conceals the card at
    [(i + 1) mod N]; and [2 * N] steps of [advance] bring index and
    reveal flag back to what they were. *)
Theorem advance_cycle (a : App) :
  Browsing a -> Deck a <> [] -> validIndex a ->
  (Revealed a = false ->
   exists a', advance a = Ret a' /\ Deck a' = Deck a
              /\ session a' = (CurrentCardIdx a, true))
  /\ (Revealed a = true ->
      exists a', advance a = Ret a' /\ Deck a' = Deck a
                 /\ session a' = ((CurrentCardIdx a + 1) mod goint.len (Deck a), false))
  /\ exists a', advances (2 * List.length (Deck a)) a = Ret a'
                /\ session a' = session a.
Proof.
  intros Hb _ Hv. split; [| split].
  - intros Hr. destruct (advance_reveal a Hb Hv Hr) as [t ->]. eauto.
  - intros Hr. destruct (advance_next a Hb Hv Hr) as [t ->]. eauto.
  - destruct (advances_even (List.length (Deck a)) a Hb Hv) as (a' & E & _ & _ & Hr & Hc).
    exists a'. split; [exact E |]. unfold session. rewrite Hr, Hc. f_equal.
    destruct Hv as [Hi _]. unfold goint.len in *.
    rewrite <- (Z.mul_1_l (Z.of_nat (List.length (Deck a)))) at 1.
    rewrite Z.mod_add by lia. apply Z.mod_small. lia.
Qed.

Lemma advance_cycle_witness :
  exists a', advances 4 sampleApp = Ret a' /\ session a' = session sampleApp.
Proof.
  destruct (advance_cycle sampleApp) as (_ & _ & H).
  - split; reflexivity.
  - discriminate.
  - unfold validIndex, goint.len, goint.max_int. simpl. lia.
  - exact H.
Defined.

(** ** Strings *)

Section Strings.

Local Open Scope string_scope.

Lemma append_assoc (s t u : string) : (s ++ t) ++ u = s ++ t ++ u.
Proof.
  induction s as [| c s IH]; simpl; congruence.
Qed.

Lemma append_nil_r (s : string) : s ++ "" = s.
Proof.
  induction s as [| c s IH]; simpl; congruence.
Qed.

Lemma length_append (s t : string) :
  String.length (s ++ t) = (String.length s + String.length t)%nat.
Proof.
  induction s as [| c s IH]; simpl; congruence.
Qed.

Lemma contains_here (s post : string) : contains s (s ++ post).
Proof.
  exists "", post. reflexivity.
Qed.

Lemma contains_append_l (s pre t : string) : contains s t -> contains s (pre ++ t).
Proof.
  intros (p & q & ->). exists (pre ++ p), q. now rewrite append_assoc.
Qed.

Lemma contains_append_r (s t post : string) : contains s t -> contains s (t ++ post).
Proof.
  intros (p & q & ->). exists p, (q ++ post). now rewrite !append_assoc.
Qed.

End Strings.

Create HintDb contains.
#[local] Hint Resolve contains_here contains_append_l contains_append_r : contains.

(** ** The card view *)

(** The text of a concealed card does not depend on its translation or
    its pronunciation. *)
Lemma cardText_concealed (i n : Z) (id : Z) (en zh py zh' py' : string) :
  cardText i n false (mkFlashcard id en zh py)
  = cardText i n false (mkFlashcard id en zh' py').
Proof.
  reflexivity.
Qed.

Lemma cardText_source (i n : Z) (r : bool) (c : Flashcard) :
  contains (English c) (cardText i n r c).
Proof.
  unfold cardText. auto 20 with contains.
Qed.

Lemma cardText_counter (i n : Z) (r : bool) (c : Flashcard) :
  contains (goint.itoa (goint.add i 1) ++ "/" ++ goint.itoa n)%string (cardText i n r c).
Proof.
  unfold cardText.
  do 3 apply contains_append_l. apply contains_append_r. apply contains_append_l.
  match goal with
  | |- contains _ (_ ++ _ ++ _ ++ ?tail)%string => exists EmptyString, tail
  end.
  simpl. now rewrite !append_assoc.
Qed.

Lemma cardText_answer (i n : Z) (c : Flashcard) :
  contains (Chinese c) (cardText i n true c) /\ contains (Pinyin c) (cardText i n true c).
Proof.
  unfold cardText. split; auto 20 with contains.
Qed.



(** C7. With an empty deck the card view shows the placeholder message,
    whatever the index is; the deck is not indexed, since every index
    into the empty deck panics and the rendering returns. *)
Theorem empty_deck_placeholder (a : App) :
  UpdateCardView (withDeck [] a) = Ret (SetText "No cards in deck!" (withDeck [] a))
  /\ forall i : Z, exists p, index (Deck (withDeck [] a)) i = Panics p.
Proof.
  split; [reflexivity |]. intros i. apply index_empty.
Qed.

(** C9. While browsing an empty deck, the first [advance] sets the
    reveal flag and leaves deck and index alone, the card view showing
    the placeholder; the second one takes a remainder modulo the length
    0 and panics with a division by zero.  Rendering the same state
    returns: only the card view guards against the empty deck. *)
Theorem advance_empty_deck_panics (a : App) :
  Browsing a -> Deck a = [] -> Revealed a = false ->
  exists a1,
    advance a = Ret a1
    /\ Revealed a1 = true /\ Deck a1 = [] /\ CurrentCardIdx a1 = CurrentCardIdx a
    /\ CardView a1 = "No cards in deck!"%string
    /\ advance a1 = Panics DivideByZero
    /\ UpdateCardView a1 = Ret a1.
Proof.
  intros [_ Hf] Hd Hr. unfold advance, HandleInput, UpdateCardView.
  rewrite Hf, Hr. simpl. rewrite Hd. simpl. eexists. split; [reflexivity |].
  simpl. rewrite Hf, Hd. simpl. repeat split; reflexivity.
Qed.

Lemma advance_empty_deck_panics_witness :
  exists a1, advance emptyApp = Ret a1 /\ advance a1 = Panics DivideByZero.
Proof.
  destruct (advance_empty_deck_panics emptyApp) as (a1 & E & _ & _ & _ & _ & P & _).
  - split; reflexivity.
  - reflexivity.
  - reflexivity.
  - exists a1. split; assumption.
Defined.

(** ** The translation client *)

(** The outcomes of [Translate] on a delivered body, by what the two
    decodings give. *)
Lemma Translate_cases (svc : Service) (a : AI) (sentence body : string) :
  svc a sentence = Body body ->
  (Translate svc a sentence = Err (NoResponse body)
   <-> json.UnmarshalResult body = Ok (mkChatCompletionsResult []))
  /\ (forall e, json.UnmarshalResult body = Err e ->
                Translate svc a sentence = Err (JSONError e))
  /\ (forall m ms,
        json.UnmarshalResult body = Ok (mkChatCompletionsResult (m :: ms)) ->
        (forall e, json.UnmarshalTranslation (Content m) = Err e ->
                   Translate svc a sentence = Err (JSONError e))
        /\ (forall zh py,
              json.UnmarshalTranslation (Content m) = Ok (zh, py) ->
              (zh = EmptyString \/ py = EmptyString ->
               Translate svc a sentence = Err NoTranslation)
              /\ (zh <> EmptyString /\ py <> EmptyString ->
                  Translate svc a sentence = Ok (zh, py))))
  /\ (forall zh py,
        Translate svc a sentence = Ok (zh, py) ->
        zh <> EmptyString /\ py <> EmptyString
        /\ exists m ms,
             json.UnmarshalResult body = Ok (mkChatCompletionsResult (m :: ms))
             /\ json.UnmarshalTranslation (Content m) = Ok (zh, py)).
Proof.
  intros Hs. unfold Translate. rewrite Hs.
  destruct (json.UnmarshalResult body) as [[[| m ms]] | e0] eqn:Hu; simpl.
  - repeat split; try congruence; intros; discriminate.
  - destruct (json.UnmarshalTranslation (Content m)) as [[zh0 py0] | e1] eqn:Ht.
    + split; [split; intros H; [| discriminate] |].
      { destruct ((zh0 =? "")%string || (py0 =? "")%string); discriminate. }
      split; [intros; discriminate |].
      split.
      * intros m' ms' [= <- <-]. rewrite Ht.
        split; [intros; discriminate |].
        intros zh py [= <- <-].
        destruct (String.eqb_spec zh0 EmptyString) as [Hz | Hz];
          [| destruct (String.eqb_spec py0 EmptyString) as [Hp | Hp]]; simpl.
        all: split; [intros [? | ?] | intros [? ?]]; congruence.
      * intros zh py.
        destruct (String.eqb_spec zh0 EmptyString) as [Hz | Hz];
          [| destruct (String.eqb_spec py0 EmptyString) as [Hp | Hp]]; simpl.
        all: intros [= ? ?]; subst; eauto 6.
    + split; [split; intros; discriminate |].
      split; [intros; discriminate |].
      split; [| intros; discriminate].
      intros m' ms' [= <- <-]. rewrite Ht.
      split; [intros e [= <-]; reflexivity | intros; discriminate].
  - split; [split; intros; discriminate |].
    split; [intros e [= <-]; reflexivity |].
    split; intros; discriminate.
Qed.

Lemma Unmarshal_syntax {A : Type} (into : json.value -> A -> A * bool) (zero : A)
    (data : string) :
  json.parse data = None -> json.Unmarshal into zero data = Err json.SyntaxError.
Proof.
  unfold json.Unmarshal. now intros ->.
Qed.

(** C3. When the service delivers a body, [Translate] fails with the
    error for an empty response exactly when the body decodes to a result
    without choices; it fails with the decoding error when the body, or
    the content of the first choice's message, does not decode, which is
    the case when either is not one well-formed JSON value; it fails
    with the error for missing fields when the translation or the
    pronunciation decoded from that content is empty; and when it
    succeeds, it returns these two fields, both non-empty. *)
Theorem Translate_outcomes (svc : Service) (a : AI) (sentence body : string) :
  svc a sentence = Body body ->
  (Translate svc a sentence = Err (NoResponse body)
   <-> json.UnmarshalResult body = Ok (mkChatCompletionsResult []))
  /\ (forall e, json.UnmarshalResult body = Err e ->
                Translate svc a sentence = Err (JSONError e))
  /\ (json.parse body = None ->
      Translate svc a sentence = Err (JSONError json.SyntaxError))
  /\ (forall m ms,
        json.UnmarshalResult body = Ok (mkChatCompletionsResult (m :: ms)) ->
        (forall e, json.UnmarshalTranslation (Content m) = Err e ->
                   Translate svc a sentence = Err (JSONError e))
        /\ (json.parse (Content m) = None ->
            Translate svc a sentence = Err (JSONError json.SyntaxError))
        /\ (forall zh py,
              json.UnmarshalTranslation (Content m) = Ok (zh, py) ->
              (zh = EmptyString \/ py = EmptyString ->
               Translate svc a sentence = Err NoTranslation)
              /\ (zh <> EmptyString /\ py <> EmptyString ->
                  Translate svc a sentence = Ok (zh, py))))
  /\ (forall zh py,
        Translate svc a sentence = Ok (zh, py) ->
        zh <> EmptyString /\ py <> EmptyString
        /\ exists m ms,
             json.UnmarshalResult body = Ok (mkChatCompletionsResult (m :: ms))
             /\ json.UnmarshalTranslation (Content m) = Ok (zh, py)).
Proof.
  intros Hs.
  destruct (Translate_cases svc a sentence body Hs) as (Hnone & Hbody & Hfirst & Hok).
  split; [exact Hnone |]. split; [exact Hbody |]. split; [| split; [| exact Hok]].
  - intros Hp. apply Hbody. unfold json.UnmarshalResult.
    now rewrite (Unmarshal_syntax _ _ _ Hp).
  - intros m ms Hu. destruct (Hfirst m ms Hu) as [Herr Hfields].
    split; [exact Herr |]. split; [| exact Hfields].
    intros Hp. apply Herr. now apply Unmarshal_syntax.
Qed.

Lemma Translate_outcomes_witness :
  Translate (fun _ _ => replyWith "你好" "Nǐ hǎo") (mkAI "key" "gpt-4o-mini") "Hello"
  = Ok ("你好", "Nǐ hǎo")%string.
Proof.
  destruct (Translate_outcomes (fun _ _ => replyWith "你好" "Nǐ hǎo")
              (mkAI "key" "gpt-4o-mini") "Hello" (bodyWith "你好" "Nǐ hǎo") eq_refl)
    as (_ & _ & _ & H & _).
  destruct (H (mkMessage "assistant" (translationJSON "你好" "Nǐ hǎo")) [])
    as (_ & _ & H2); [vm_compute; reflexivity |].
  destruct (H2 "你好" "Nǐ hǎo")%string as [_ H3]; [vm_compute; reflexivity |].
  apply H3. split; discriminate.
Defined.

(** C5. When the service's reply decodes to a result without choices,
    [Translate] fails with the error for an empty response, and
    [SaveNewCard] stops the application and prints that error: the deck
    and the file system are as before. *)
Theorem submit_zero_choices (text body : string) (a : App) (w : World) :
  service w (ai a) text = Body body ->
  json.UnmarshalResult body = Ok (mkChatCompletionsResult []) ->
  Translate (service w) (ai a) text = Err (NoResponse body)
  /\ exists a' w',
       SaveNewCard text a w = Ret (a', w')
       /\ Deck a' = Deck a /\ fs w' = fs w
       /\ tview.stopped (Application a') = true
       /\ stdout w' = (stdout w ++ [("Error translating text:"%string,
                                      Some (NoResponse body))])%list.
Proof.
  intros Hs Hu.
  assert (Ht : Translate (service w) (ai a) text = Err (NoResponse body))
    by (unfold Translate; now rewrite Hs, Hu).
  split; [exact Ht |]. unfold SaveNewCard. rewrite Ht.
  eexists _, _. split; [reflexivity |]. repeat split.
Qed.

Lemma submit_zero_choices_witness :
  exists a' w',
    SaveNewCard "Hello" editingApp (sampleWorld sampleFile 1000 replyNoChoices) = Ret (a', w')
    /\ Deck a' = [dog; cat]
    /\ fs w' = fs (sampleWorld sampleFile 1000 replyNoChoices).
Proof.
  destruct (submit_zero_choices "Hello" bodyNoChoices editingApp
              (sampleWorld sampleFile 1000 replyNoChoices))
    as (_ & a' & w' & E & Hd & Hf & _).
  - reflexivity.
  - vm_compute. reflexivity.
  - exists a', w'. repeat split; assumption.
Defined.

(** ** Appending to the record file *)

(** Opening for append and writing succeed on an appendable file: the
    text goes behind the content, other files stay as they are. *)
Lemma append_succeeds (path text : string) (f : os.FS) :
  appendable path text f ->
  exists f1 f2,
    os.OpenFileAppend path f = (Ok path, f1)
    /\ os.Write path text f1 = (Ok (String.length text), f2)
    /\ content path f2 = (content path f ++ text)%string
    /\ os.free f2 = (os.free f - String.length text)%nat
    /\ forall q, q <> path -> os.files f2 !! q = os.files f !! q.
Proof.
  intros [Hw Hroom]. unfold os.OpenFileAppend, os.Write, content.
  destruct (os.files f !! path) as [x |] eqn:Hx.
  - rewrite (Hw x eq_refl). eexists _, _. split; [reflexivity |].
    rewrite Hx. destruct (Nat.leb_spec (String.length text) (os.free f)); [| lia].
    split; [reflexivity |]. simpl. rewrite lookup_insert_eq. simpl.
    repeat split. intros q Hq. now rewrite lookup_insert_ne.
  - eexists _, _. split; [reflexivity |]. simpl. rewrite lookup_insert_eq. simpl.
    destruct (Nat.leb_spec (String.length text) (os.free f)); [| lia].
    split; [reflexivity |]. simpl. rewrite lookup_insert_eq. simpl.
    repeat split. intros q Hq. rewrite !lookup_insert_ne by congruence. reflexivity.
Qed.

Lemma length_take (n : nat) (s : string) :
  String.length (os.take n s) = Nat.min n (String.length s).
Proof.
  revert s. induction n as [| n IH]; intros [| c s]; simpl; try reflexivity.
  now rewrite IH.
Qed.

Lemma append_inv_l (s t u : string) : (s ++ t = s ++ u)%string -> t = u.
Proof.
  induction s as [| c s IH]; simpl; intros H; [exact H | injection H; auto].
Qed.

(** A text cut short is not the text. *)
Lemma take_short (n : nat) (s0 s : string) :
  (n < String.length s)%nat -> (s0 ++ os.take n s)%string <> (s0 ++ s)%string.
Proof.
  intros Hn H. apply append_inv_l in H.
  apply (f_equal String.length) in H. rewrite length_take in H. lia.
Qed.

(** The append fails when the file may not be written or the device
    lacks room; then at most a proper part of the text reaches the file. *)
Lemma append_fails (path text : string) (f : os.FS) :
  ~ appendable path text f ->
  (exists e, os.OpenFileAppend path f = (Err e, f))
  \/ exists f1 f2 e n,
       os.OpenFileAppend path f = (Ok path, f1)
       /\ os.Write path text f1 = (Err e, f2)
       /\ (n < String.length text)%nat
       /\ content path f2 = (content path f ++ os.take n text)%string.
Proof.
  intros Hn. unfold os.OpenFileAppend, os.Write, content.
  destruct (os.files f !! path) as [x |] eqn:Hx.
  - destruct (os.writable x) eqn:Hw; [| left; eauto].
    right. eexists _, _, _, (os.free f). split; [reflexivity |]. rewrite Hx.
    destruct (Nat.leb_spec (String.length text) (os.free f)) as [Hle | Hlt].
    + exfalso. apply Hn. split; [| exact Hle]. intros y Hy. congruence.
    + split; [reflexivity |]. split; [exact Hlt |]. simpl.
      now rewrite lookup_insert_eq.
  - right. eexists _, _, _, (os.free f). split; [reflexivity |]. simpl.
    rewrite lookup_insert_eq. simpl.
    destruct (Nat.leb_spec (String.length text) (os.free f)) as [Hle | Hlt].
    + exfalso. apply Hn. split; [| exact Hle]. intros y Hy. congruence.
    + split; [reflexivity |]. split; [exact Hlt |]. simpl.
      now rewrite lookup_insert_eq.
Qed.

Lemma len_snoc {A : Type} (l : list A) (x : A) :
  goint.len (l ++ [x]) = goint.len l + 1.
Proof.
  unfold goint.len. rewrite length_app. simpl. lia.
Qed.

(** The successful path of [SaveNewCard]. *)
Lemma SaveNewCard_saved (text zh py cardJSON : string) (a : App) (w : World) :
  Translate (service w) (ai a) text = Ok (zh, py) ->
  json.MarshalFlashcard (newCardOver (Deck a) text zh py) = Ok cardJSON ->
  appendable (FlashcardsFile a) (cardJSON ++ nl) (fs w) ->
  0 <= CurrentCardIdx a <= goint.len (Deck a) ->
  exists view f2,
    SaveNewCard text a w
    = Ret (SetText view
             (withApplication (tview.SetRootMainView (Application a))
                (withDeck (Deck a ++ [newCardOver (Deck a) text zh py]) a)),
           withFS f2 w)
    /\ content (FlashcardsFile a) f2
       = (content (FlashcardsFile a) (fs w) ++ cardJSON ++ nl)%string
    /\ forall q, q <> FlashcardsFile a -> os.files f2 !! q = os.files (fs w) !! q.
Proof.
  intros Ht Hm Ha Hi. unfold SaveNewCard. rewrite Ht.
  unfold newCardOver in *. cbn [FlashcardsFile withDeck].
  destruct (append_succeeds _ _ _ Ha) as (f1 & f2 & -> & Hw & Hc & _ & Hq).
  rewrite Hm, Hw.
  match goal with |- context [UpdateCardView ?b] => set (a1 := b) end.
  destruct (UpdateCardView_valid a1) as [view ->].
  { simpl. rewrite len_snoc. lia. }
  simpl. exists view, f2. split; [reflexivity |]. split; assumption.
Qed.

(** The failing paths of [SaveNewCard] behind the translation. *)
Lemma SaveNewCard_unsaved (text zh py cardJSON : string) (a : App) (w : World) :
  Translate (service w) (ai a) text = Ok (zh, py) ->
  json.MarshalFlashcard (newCardOver (Deck a) text zh py) = Ok cardJSON ->
  ~ appendable (FlashcardsFile a) (cardJSON ++ nl) (fs w) ->
  exists f2 msg e n,
    SaveNewCard text a w
    = Ret (stop (withDeck (Deck a ++ [newCardOver (Deck a) text zh py]) a),
           Println msg (Some (OSError e)) (withFS f2 w))
    /\ (n < String.length (cardJSON ++ nl))%nat
    /\ content (FlashcardsFile a) f2
       = (content (FlashcardsFile a) (fs w) ++ os.take n (cardJSON ++ nl))%string.
Proof.
  intros Ht Hm Ha. unfold SaveNewCard. rewrite Ht.
  unfold newCardOver in *. cbn [FlashcardsFile withDeck].
  destruct (append_fails _ _ _ Ha) as [[e ->] | (f1 & f2 & e & n & -> & Hw & Hn & Hc)].
  - exists (fs w), "Error opening flashcards file:"%string, e, 0%nat.
    split; [reflexivity |]. split.
    + rewrite length_append. simpl. lia.
    + destruct (cardJSON ++ nl)%string; simpl; now rewrite append_nil_r.
  - rewrite Hm, Hw.
    exists f2, "Error writing new card to file:"%string, e, n.
    split; [reflexivity |]. split; assumption.
Qed.

Lemma MarshalFlashcard_total (c : Flashcard) : exists s, json.MarshalFlashcard c = Ok s.
Proof.
  eexists. reflexivity.
Qed.


(** ** The encoding of a card is one line *)

Lemma lineCount_append (s t : string) :
  lineCount (s ++ t) = (lineCount s + lineCount t)%nat.
Proof.
  induction s as [| c s IH]; simpl; [reflexivity |].
  destruct (isc c (ascii_of_nat 10)); simpl; now rewrite IH.
Qed.

Lemma lineCount_uint (d : Decimal.uint) : lineCount (NilEmpty.string_of_uint d) = 0%nat.
Proof.
  induction d; simpl; assumption || reflexivity.
Qed.

Lemma lineCount_itoa (z : Z) : lineCount (goint.itoa z) = 0%nat.
Proof.
  unfold goint.itoa, NilZero.string_of_int, NilZero.string_of_uint.
  destruct (Z.to_int z) as [d | d]; destruct d; simpl;
    reflexivity || apply lineCount_uint.
Qed.

(** A byte from [0x80] on is no newline. *)
Lemma high_not_newline (c : ascii) :
  (utf8.code c <? 128)%N = false -> isc c (ascii_of_nat 10) = false.
Proof.
  intros H. unfold isc. destruct (Ascii.eqb_spec c (ascii_of_nat 10)) as [-> | _];
    [discriminate H | reflexivity].
Qed.

Lemma hex_not_newline (n : N) : (n < 16)%N -> isc (json.hex n) (ascii_of_nat 10) = false.
Proof.
  intros H.
  assert (E : exists k, (k < 16)%nat /\ n = N.of_nat k)
    by (exists (N.to_nat n); split; lia).
  destruct E as (k & Hk & ->).
  do 16 (destruct k as [| k]; [reflexivity |]). lia.
Qed.

Lemma cont_high (c : ascii) : utf8.cont c = true -> (utf8.code c <? 128)%N = false.
Proof.
  unfold utf8.cont, utf8.between. intros H. apply andb_prop in H as [H _].
  apply N.leb_le in H. apply N.ltb_ge. exact H.
Qed.

Lemma between_high (lo hi : N) (c : ascii) :
  (128 <= lo)%N -> utf8.between lo hi c = true -> (utf8.code c <? 128)%N = false.
Proof.
  unfold utf8.between. intros Hlo H. apply andb_prop in H as [H _].
  apply N.leb_le in H. apply N.ltb_ge. lia.
Qed.

(** From a disjunction of conditions on a first and a second byte, a
    bound on the second. *)
Ltac second_high H :=
  repeat (apply orb_prop in H as [H | H]);
  apply andb_prop in H as [_ H];
  (apply cont_high in H || (apply between_high in H; [| lia]));
  exact H.

(** Behind the first byte of a valid encoding of width [k + 1] come [k]
    continuation bytes. *)
Lemma width_high (c : ascii) (rest : string) (k : nat) :
  (utf8.code c <? 128)%N = false ->
  utf8.width (String c rest) = S k -> highPrefix k rest.
Proof.
  intros Hc. unfold utf8.width. rewrite Hc.
  destruct rest as [| c1 s2]; [discriminate |].
  destruct (utf8.between 194 223 c).
  { destruct (utf8.cont c1) eqn:H1; intros [= <-]. simpl.
    split; [now apply cont_high | now destruct s2]. }
  destruct s2 as [| c2 s3]; [discriminate |].
  match goal with |- context [if ?b then 3%nat else _] => destruct b eqn:H3 end.
  { intros [= <-]. apply andb_prop in H3 as [H3 H2].
    assert (H1 : (utf8.code c1 <? 128)%N = false) by second_high H3.
    simpl. split; [exact H1 |]. split; [now apply cont_high | now destruct s3]. }
  destruct s3 as [| c3 s4]; [discriminate |].
  match goal with |- context [if ?b then 4%nat else _] => destruct b eqn:H4 end;
    [| discriminate].
  intros [= <-]. apply andb_prop in H4 as [H4 Hc3]. apply andb_prop in H4 as [H4 Hc2].
  assert (H1 : (utf8.code c1 <? 128)%N = false) by second_high H4.
  simpl. split; [exact H1 |]. split; [now apply cont_high |].
  split; [now apply cont_high | now destruct s4].
Qed.

Lemma appendStringFrom_one_line (s : string) :
  forall copy drop : nat,
    (drop = 0%nat -> highPrefix copy s) -> (drop <> 0%nat -> copy = 0%nat) ->
    lineCount (json.appendStringFrom copy drop s) = 0%nat.
Proof.
  induction s as [| c rest IH]; intros copy drop Hcopy Hdrop; [reflexivity |].
  destruct drop as [| d].
  - destruct copy as [| k].
    + cbn [json.appendStringFrom].
      destruct (utf8.code c <? 128)%N eqn:Hc.
      * rewrite lineCount_append, (IH 0%nat 0%nat) by (simpl; tauto || congruence).
        rewrite Nat.add_0_r.
        destruct (json.htmlSafe c) eqn:Hs.
        { unfold json.htmlSafe in Hs. apply andb_prop in Hs as [Hs _].
          simpl. unfold isc. destruct (Ascii.eqb_spec c (ascii_of_nat 10)) as [-> | _];
            [discriminate Hs | reflexivity]. }
        destruct (isc c "\" || isc c dq) eqn:Hq.
        { simpl. unfold isc in *.
          destruct (Ascii.eqb_spec c (ascii_of_nat 10)) as [-> | _];
            [discriminate Hq | reflexivity]. }
        repeat match goal with |- context [if ?b then _ else _] => destruct b end;
          try reflexivity.
        rewrite lineCount_append. simpl.
        rewrite !hex_not_newline; [reflexivity | |].
        -- apply N.mod_lt. lia.
        -- apply N.ltb_lt in Hc. apply N.Div0.div_lt_upper_bound. lia.
      * destruct (utf8.width (String c rest)) as [| k] eqn:Hw.
        { rewrite lineCount_append. apply (IH 0%nat 0%nat); simpl; tauto || congruence. }
        pose proof (width_high c rest k Hc Hw) as Hh.
        assert (Hplain : lineCount (String c (json.appendStringFrom k 0 rest)) = 0%nat).
        { simpl. rewrite (high_not_newline c Hc). apply IH; [intros _; exact Hh | congruence]. }
        destruct rest as [| c1 [| c2 r]]; try exact Hplain.
        match goal with |- context [if ?b then _ else _] => destruct b end;
          [| exact Hplain].
        rewrite !lineCount_append. simpl.
        rewrite hex_not_newline by (apply N.mod_lt; lia).
        apply (IH 0%nat 2%nat); [discriminate | reflexivity].
    + cbn [json.appendStringFrom]. destruct (Hcopy eq_refl) as [Hc Hh].
      simpl. rewrite (high_not_newline c Hc). apply IH; [intros _; exact Hh | congruence].
  - cbn [json.appendStringFrom]. rewrite (Hdrop ltac:(discriminate)).
    apply IH; [intros _; now destruct rest | reflexivity].
Qed.

Lemma MarshalFlashcard_one_line (c : Flashcard) (s : string) :
  json.MarshalFlashcard c = Ok s -> lineCount s = 0%nat.
Proof.
  unfold json.MarshalFlashcard, json.member, json.appendString. intros [= <-].
  repeat (progress (simpl;
                    rewrite ?lineCount_append, ?lineCount_itoa,
                      ?appendStringFrom_one_line by (simpl; tauto || congruence))).
  reflexivity.
Qed.

(** ** Lines of the record file *)

Lemma splitLines_append (s t cur : string) :
  splitLines cur (s ++ t)
  = ((fst (splitLines cur s) ++ fst (splitLines (snd (splitLines cur s)) t))%list,
     snd (splitLines (snd (splitLines cur s)) t)).
Proof.
  revert cur. induction s as [| c s IH]; intros cur; simpl.
  - now destruct (splitLines cur t).
  - destruct (isc c (ascii_of_nat 10)).
    + rewrite IH. destruct (splitLines EmptyString s) as [ls r]. reflexivity.
    + apply IH.
Qed.

Lemma splitLines_one_line (l cur : string) :
  lineCount l = 0%nat -> splitLines cur (l ++ nl) = ([(cur ++ l)%string], EmptyString).
Proof.
  revert cur. induction l as [| c l IH]; intros cur H; simpl in *.
  - now rewrite append_nil_r.
  - destruct (isc c (ascii_of_nat 10)); [discriminate |].
    rewrite (IH _ H). unfold snoc. now rewrite append_assoc.
Qed.

(** Appending a line that is ended by a newline keeps the lines there
    are and adds one, which starts with the unfinished line if the text
    had one. *)
Lemma lines_append_line (old l : string) :
  lineCount l = 0%nat ->
  lines (old ++ l ++ nl) = (lines old ++ [(pending old ++ l)%string])%list
  /\ pending (old ++ l ++ nl) = EmptyString
  /\ lineCount (old ++ l ++ nl) = S (lineCount old).
Proof.
  intros H. unfold lines, pending.
  rewrite splitLines_append, (splitLines_one_line l _ H). simpl.
  repeat split. rewrite !lineCount_append, H. simpl. lia.
Qed.

(** ** Loading the deck *)

Lemma skipSpace_length (s : string) :
  (String.length (json.skipSpace s) <= String.length s)%nat.
Proof.
  induction s as [| c s IH]; simpl; [lia |].
  destruct (json.isSpace c); simpl; lia.
Qed.

Lemma More_length (dec dec' : string) (b : bool) :
  json.More dec = (b, dec') -> (String.length dec' <= String.length dec)%nat.
Proof.
  unfold json.More, json.peek. pose proof (skipSpace_length dec) as H.
  destruct (json.skipSpace dec); intros [= <- <-]; simpl in *; lia.
Qed.

Lemma More_true (dec dec' : string) :
  json.More dec = (true, dec') -> exists c r, dec' = String c r.
Proof.
  unfold json.More, json.peek.
  destruct (json.skipSpace dec); intros [= ? <-]; eauto.
Qed.

(** What [readValue] leaves unread is no longer than what it was given. *)
Lemma readValue_length (buf : string) :
  forall (s : json.scanner) (all : string) (v : json.value) (rest : string),
    json.readValue s all buf = Ok (v, rest) ->
    (String.length rest <= String.length buf)%nat.
Proof.
  induction buf as [| c buf IH]; intros s all v rest; simpl.
  - destruct (json.scan s " ") as [[] s']; try discriminate.
    destruct (json.top s'); intros [= <- <-]; simpl; lia.
  - destruct (json.scan s c) as [[] s'].
    + intros H. apply IH in H. lia.
    + destruct (json.stateEndValue_step s' " ") as [[] ?];
        try (intros H; apply IH in H; lia).
      destruct (json.top s'); [intros [= <- <-]; lia | intros H; apply IH in H; lia].
    + destruct (json.stateEndValue_step s' " ") as [[] ?];
        try (intros H; apply IH in H; lia).
      destruct (json.top s'); [intros [= <- <-]; lia | intros H; apply IH in H; lia].
    + destruct (json.top s'); intros [= <- <-]; simpl; lia.
    + discriminate.
Qed.

(** The first byte of a value never ends it. *)
Lemma scan_reset (c : ascii) :
  exists s', json.scan json.reset c = (json.scanContinue, s')
             \/ json.scan json.reset c = (json.scanError, s').
Proof.
  unfold json.scan, json.stateBeginValue_step, json.pushParseState. simpl.
  repeat match goal with |- context [if ?b then _ else _] => destruct b end; eauto.
Qed.

(** A value that was decoded took at least one byte. *)
Lemma Decode_progress {A : Type} (into : json.value -> A -> A * bool) (zero : A)
    (c : ascii) (r : string) (x : A) (dec' : string) :
  json.Decode into zero (String c r) = (Ok x, dec') ->
  (String.length dec' < String.length (String c r))%nat.
Proof.
  unfold json.Decode. cbn [json.readValue].
  destruct (scan_reset c) as [s' [-> | ->]]; [| discriminate].
  destruct (json.readValue s' (String c r) r) as [[v rest] | e] eqn:H; [| discriminate].
  apply readValue_length in H. destruct (into v zero) as [y []]; intros [= ? <-].
  simpl. lia.
Qed.

(** The loop of [LoadDeck] ends within as many iterations as the
    input has bytes, and one more. *)
Lemma decodeCards_total (fuel : nat) :
  forall (dec : string) (deck : list Flashcard),
    (String.length dec < fuel)%nat -> exists r, decodeCards fuel dec deck = Some r.
Proof.
  induction fuel as [| fuel IH]; intros dec deck Hlen; [lia |]. simpl.
  destruct (json.More dec) as [[] dec1] eqn:Hm; [| eauto].
  pose proof (More_length _ _ _ Hm) as Hl.
  destruct (More_true _ _ Hm) as (c & r & ->).
  destruct (json.DecodeFlashcard (String c r)) as [[card | e] dec2] eqn:Hd; [| eauto].
  apply Decode_progress in Hd. apply IH. lia.
Qed.

(** [LoadDeck] returns. *)
Lemma LoadDeck_total (filename : string) (a : App) (w : World) :
  exists r, LoadDeck filename a w = Some r.
Proof.
  unfold LoadDeck. destruct (os.Open filename (fs w)) as [text | e]; [| eauto].
  match goal with |- context [decodeCards ?f ?d ?k] =>
    destruct (decodeCards_total f d k) as [[deck err] ->]
  end; [lia | eauto].
Qed.

(** The loop follows the cards that the decoder reads. *)
Lemma decodeCards_reads (dec dec' : string) (cards : list Flashcard) :
  reads dec cards dec' ->
  forall (fuel : nat) (deck : list Flashcard),
    (String.length dec < fuel)%nat ->
    exists fuel',
      (String.length dec' < fuel')%nat
      /\ decodeCards fuel dec deck = decodeCards fuel' dec' (deck ++ cards)%list.
Proof.
  induction 1 as [dec | dec dec1 dec2 dec3 card cards Hm Hd _ IH]; intros fuel deck Hlen.
  - exists fuel. now rewrite app_nil_r.
  - destruct fuel as [| fuel]; [lia |]. simpl. rewrite Hm, Hd.
    pose proof (More_length _ _ _ Hm) as Hl.
    destruct (More_true _ _ Hm) as (c & r & ->).
    apply Decode_progress in Hd.
    destruct (IH fuel (deck ++ [card])%list) as (fuel' & Hf & ->); [lia |].
    exists fuel'. split; [exact Hf |]. now rewrite <- app_assoc.
Qed.

(** When the decoder fails on a value, [LoadDeck] returns its error
    and reads no further; the cards read before are in the deck. *)
Lemma LoadDeck_decode_error (filename text dec dec1 dec2 : string)
    (cards : list Flashcard) (e : json.error) (a : App) (w : World) :
  os.Open filename (fs w) = Ok text ->
  reads text cards dec ->
  json.More dec = (true, dec1) ->
  json.DecodeFlashcard dec1 = (Err e, dec2) ->
  LoadDeck filename a w
  = Some (withDeck (Deck a ++ cards) (withFlashcardsFile filename a), Some (JSONError e)).
Proof.
  intros Ho Hr Hm Hd. unfold LoadDeck. rewrite Ho.
  destruct (decodeCards_reads _ _ _ Hr (S (String.length text)) (Deck a))
    as (fuel' & Hf & E); [lia |].
  simpl Deck. rewrite E. destruct fuel' as [| fuel']; [lia |].
  simpl. now rewrite Hm, Hd.
Qed.

(** When no further value follows, [LoadDeck] returns [nil]. *)
Lemma LoadDeck_end (filename text dec dec1 : string)
    (cards : list Flashcard) (a : App) (w : World) :
  os.Open filename (fs w) = Ok text ->
  reads text cards dec ->
  json.More dec = (false, dec1) ->
  LoadDeck filename a w
  = Some (withDeck (Deck a ++ cards) (withFlashcardsFile filename a), None).
Proof.
  intros Ho Hr Hm. unfold LoadDeck. rewrite Ho.
  destruct (decodeCards_reads _ _ _ Hr (S (String.length text)) (Deck a))
    as (fuel' & Hf & E); [lia |].
  simpl Deck. rewrite E. destruct fuel' as [| fuel']; [lia |].
  simpl. now rewrite Hm.
Qed.

(** An error of [LoadDeck] ends [main] with status 1, before any view is
    set up. *)
Lemma main_load_error (apiKey env filePath model : string) (w : World)
    (app app' : App) (err : error) :
  NewApp (if String.eqb apiKey EmptyString then env else apiKey) model = Ret app ->
  LoadDeck filePath app w = Some (app', Some err) ->
  main apiKey env filePath model w
  = Some (Ret (Exit 1, Println "Error loading deck:" (Some err) w)).
Proof.
  intros Hn Hl. unfold main.
  destruct (String.eqb_spec (if String.eqb apiKey EmptyString then env else apiKey)
              EmptyString) as [E | _].
  - rewrite E in Hn. discriminate Hn.
  - now rewrite Hn, Hl.
Qed.

(** C4, at a failing input.  The second line of the file is a lone
    closing brace, which is no JSON value; [More] takes it for the end of
    the input, so that [LoadDeck] returns [nil] with the first card alone
    in the deck, and [main] starts the application on that deck. *)
Theorem load_stops_at_closing_brace :
  lines braceFile = [recordJSON dog; "}"%string; recordJSON cat]
  /\ json.parse "}" = None
  /\ fst (json.DecodeFlashcard "}") = Err json.SyntaxError
  /\ LoadDeck "flashcards.jsonl" freshApp (sampleWorld braceFile 1000 replyNoChoices)
     = Some (withDeck [dog] (withFlashcardsFile "flashcards.jsonl" freshApp), None)
  /\ exists a,
       main "key" "" "flashcards.jsonl" "gpt-4o-mini"
         (sampleWorld braceFile 1000 replyNoChoices)
       = Some (Ret (Running a, sampleWorld braceFile 1000 replyNoChoices))
       /\ Deck a = [dog].
Proof.
  split; [vm_compute; reflexivity |]. split; [vm_compute; reflexivity |].
  split; [vm_compute; reflexivity |]. split; [vm_compute; reflexivity |].
  eexists. split; [vm_compute; reflexivity | reflexivity].
Qed.

(** * Further properties of the handlers *)

(** ** Rendering *)

Lemma index_out_of_range {A : Type} (s : list A) (i : Z) :
  ~ (0 <= i < goint.len s)%Z -> index s i = Panics (IndexOutOfRange i (goint.len s)).
Proof.
  unfold index, goint.len. intros H.
  destruct (Z.ltb_spec i 0) as [_ | Hi]; [reflexivity |].
  rewrite lookup_ge_None_2 by lia. reflexivity.
Qed.

Lemma len_zero {A : Type} (s : list A) : goint.len s = 0 <-> s = [].
Proof.
  unfold goint.len. destruct s; simpl; split; intros H;
    reflexivity || discriminate || lia.
Qed.

Lemma UpdateCardView_returns (a : App) :
  Deck a = [] \/ 0 <= CurrentCardIdx a < goint.len (Deck a) ->
  exists text, UpdateCardView a = Ret (SetText text a).
Proof.
  intros [H | H]; [| now apply UpdateCardView_valid].
  unfold UpdateCardView. rewrite H. simpl. eauto.
Qed.

(** X1. [UpdateCardView] panics exactly on a deck that is not empty with an
    index outside of it, and then with the run-time error for the index; in
    every other state it returns, having changed the text of the card view
    alone. *)
Theorem UpdateCardView_panics_iff (a : App) :
  (UpdateCardView a
   = Panics (IndexOutOfRange (CurrentCardIdx a) (goint.len (Deck a)))
   <-> Deck a <> [] /\ ~ (0 <= CurrentCardIdx a < goint.len (Deck a))%Z)
  /\ (Deck a = [] \/ 0 <= CurrentCardIdx a < goint.len (Deck a) ->
      exists text, UpdateCardView a = Ret (SetText text a)).
Proof.
  unfold UpdateCardView.
  destruct (Z.eqb_spec (goint.len (Deck a)) 0) as [E | E].
  - apply len_zero in E. split.
    + split; [discriminate | intros [H _]; contradiction].
    + intros _. simpl. eauto.
  - assert (Hne : Deck a <> []) by (intros H; apply E; now apply len_zero).
    destruct (Z_lt_le_dec (CurrentCardIdx a) 0) as [Hlt | Hge];
      [| destruct (Z_lt_le_dec (CurrentCardIdx a) (goint.len (Deck a))) as [Hin | Hout]].
    + rewrite index_out_of_range by lia. simpl. split.
      * split; [intros _; split; [exact Hne | lia] | reflexivity].
      * intros [H | H]; [contradiction | lia].
    + destruct (index_in_range (Deck a) (CurrentCardIdx a)) as (card & -> & _); [lia |].
      simpl. split.
      * split; [discriminate | intros [_ H]; exfalso; apply H; lia].
      * eauto.
    + rewrite index_out_of_range by lia. simpl. split.
      * split; [intros _; split; [exact Hne | lia] | reflexivity].
      * intros [H | H]; [contradiction | lia].
Qed.

(** Rendering twice is rendering once. *)
Lemma UpdateCardView_idempotent (a a' : App) :
  UpdateCardView a = Ret a' -> inSync a'.
Proof.
  unfold inSync, UpdateCardView.
  destruct (goint.len (Deck a) =? 0) eqn:E.
  - intros [= <-]. simpl. now rewrite E.
  - destruct (index (Deck a) (CurrentCardIdx a)) as [card | p] eqn:Hi; [| discriminate].
    simpl. intros [= <-]. simpl. now rewrite E, Hi.
Qed.

(** The rendering does not look at the toolkit's state. *)
Lemma inSync_withApplication (t : tview.Application) (a : App) :
  inSync a -> inSync (withApplication t a).
Proof.
  unfold inSync, UpdateCardView. simpl.
  destruct (goint.len (Deck a) =? 0).
  - intros [= H]. simpl. destruct a; simpl in *. now rewrite <- H at 2.
  - destruct (index (Deck a) (CurrentCardIdx a)) as [card | p]; [| discriminate].
    simpl. intros [= H]. destruct a; simpl in *. now rewrite <- H at 2.
Qed.

(** ** Key events *)

(** What a key event can do to the state, when it returns: nothing, a
    new session index and reveal flag with the card view rendered, or a
    change of the toolkit's state. *)
Lemma HandleInput_shape (event : tcell.EventKey) (a a' : App) :
  HandleInput event a = Ret a' ->
  a' = a
  \/ (exists i r, UpdateCardView (withSession i r a) = Ret a')
  \/ (exists t, a' = withApplication t a).
Proof.
  unfold HandleInput.
  destruct (tview.focus (Application a)); try (intros [= <-]; now left).
  all: destruct event as [| r |]; try (intros [= <-]; now left).
  all: try (destruct (isc r "q"); [intros [= <-]; right; right; eexists; reflexivity |];
            destruct (isc r "n"); intros [= <-];
            [right; right; eexists; reflexivity | now left]).
  all: destruct (Revealed a); simpl.
  all: try (destruct (int_rem (goint.add (CurrentCardIdx a) 1) (goint.len (Deck a)))
              as [i | p]; [| discriminate]; simpl).
  all: intros H; right; left; eauto.
Qed.

(** A key event that returns leaves the card view in step with the
    session. *)
Lemma HandleInput_keeps_view (event : tcell.EventKey) (a a' : App) :
  inSync a -> HandleInput event a = Ret a' -> inSync a'.
Proof.
  intros Hs H. destruct (HandleInput_shape event a a' H) as [-> | [(i & r & Hu) | [t ->]]].
  - exact Hs.
  - exact (UpdateCardView_idempotent _ _ Hu).
  - now apply inSync_withApplication.
Qed.

(** With a valid index into a deck that is not empty, a key event
    returns, keeps the deck and the file's path, and leaves the index
    valid. *)
Lemma HandleInput_valid (event : tcell.EventKey) (a : App) :
  validIndex a ->
  exists a',
    HandleInput event a = Ret a'
    /\ Deck a' = Deck a /\ FlashcardsFile a' = FlashcardsFile a /\ validIndex a'.
Proof.
  intros Hv. pose proof Hv as [Hi Hm]. unfold HandleInput.
  assert (Hright :
    exists a',
      ((if negb (Revealed a) then mret (withSession (CurrentCardIdx a) true a)
        else i ← int_rem (goint.add (CurrentCardIdx a) 1) (goint.len (Deck a));
             mret (withSession i false a)) ≫= UpdateCardView) = Ret a'
      /\ Deck a' = Deck a /\ FlashcardsFile a' = FlashcardsFile a /\ validIndex a').
  { destruct (Revealed a); simpl.
    - unfold int_rem, goint.add.
      destruct (Z.eqb_spec (goint.len (Deck a)) 0) as [E | _]; [lia |].
      rewrite wrap_small by (unfold goint.min_int, goint.max_int in *; lia).
      rewrite Z.rem_mod_nonneg by lia. simpl.
      assert (Hn : 0 <= (CurrentCardIdx a + 1) mod goint.len (Deck a) < goint.len (Deck a))
        by (apply Z.mod_pos_bound; lia).
      match goal with |- context [UpdateCardView ?b] => set (a1 := b) end.
      destruct (UpdateCardView_valid a1 Hn) as [text ->].
      eexists. split; [reflexivity |]. repeat split; assumption || apply Hn.
    - match goal with |- context [UpdateCardView ?b] => set (a1 := b) end.
      destruct (UpdateCardView_valid a1 Hi) as [text ->].
      eexists. split; [reflexivity |]. repeat split; assumption || apply Hi. }
  destruct (tview.focus (Application a)); try (exists a; now repeat split).
  all: destruct event as [| r |]; try (exists a; now repeat split); try exact Hright.
  all: destruct (isc r "q"); [eexists; split; [reflexivity |]; now repeat split |].
  all: destruct (isc r "n"); eexists; (split; [reflexivity |]); now repeat split.
Qed.

(** X2. No run of key events over a deck that is not empty panics: with a
    valid index at the start, [HandleInput] returns at every event, the deck
    is never changed and the index stays valid; a card view in step with the
    session stays so. *)
Theorem HandleInputs_safe (events : list tcell.EventKey) (a : App) :
  validIndex a ->
  exists a',
    HandleInputs events a = Ret a'
    /\ Deck a' = Deck a /\ FlashcardsFile a' = FlashcardsFile a /\ validIndex a'
    /\ (inSync a -> inSync a').
Proof.
  revert a. induction events as [| event events IH]; intros a Hv.
  - exists a. simpl. repeat (split; [reflexivity |]). split; [exact Hv | auto].
  - destruct (HandleInput_valid event a Hv) as (a1 & E & Hd & Hf & Hv1).
    destruct (IH a1 Hv1) as (a' & E' & Hd' & Hf' & Hv' & Hs').
    exists a'. simpl. rewrite E. simpl. split; [exact E' |].
    split; [congruence |]. split; [congruence |]. split; [exact Hv' |].
    intros Hs. apply Hs'. exact (HandleInput_keeps_view event a a1 Hs E).
Qed.

Lemma HandleInputs_safe_witness :
  exists a',
    HandleInputs [tcell.KeyRight; tcell.KeyRune "n"; tcell.KeyRight; tcell.KeyOther] sampleApp
    = Ret a'
    /\ Deck a' = [dog; cat].
Proof.
  destruct (HandleInputs_safe
              [tcell.KeyRight; tcell.KeyRune "n"; tcell.KeyRight; tcell.KeyOther] sampleApp)
    as (a' & E & Hd & _).
  - unfold validIndex, goint.len, goint.max_int. simpl. lia.
  - exists a'. split; assumption.
Defined.

(** ** The new-card dialog *)

(** X3. Opening the dialog and cancelling it gives back the state as it
    was.  While the dialog's input field has the focus, every key event
    is left to the form: [HandleInput] changes nothing, whatever text the
    field holds.  With the focus on one of the form's buttons it is not
    so: [HandleInput] acts as in browsing, [q] stops the application and
    the right arrow reveals the card or moves on to the next one, behind
    the form. *)
Theorem dialog_cancel_restores (a : App) :
  Browsing a ->
  HandleInput (tcell.KeyRune "n") a = Ret (ShowNewCardDialog a)
  /\ Editing (ShowNewCardDialog a)
  /\ tview.root (Application (ShowNewCardDialog a)) = tview.RootFormFlex EmptyString
  /\ forall input : string,
       let a1 := withApplication (tview.SetRootFormFlex input (Application a)) a in
       let a2 :=
         withApplication
           (tview.mkApplication (tview.RootFormFlex input) tview.FocusButton
              (tview.stopped (Application a))) a in
       (forall event, HandleInput event a1 = Ret a1)
       /\ cancelButton a1 = a
       /\ cancelButton a2 = a
       /\ HandleInput (tcell.KeyRune "q") a2 = Ret (stop a2)
       /\ (validIndex a ->
           exists text,
             HandleInput tcell.KeyRight a2
             = Ret (SetText text
                      (withSession
                         (if Revealed a
                          then (CurrentCardIdx a + 1) mod goint.len (Deck a)
                          else CurrentCardIdx a)
                         (negb (Revealed a)) a2))).
Proof.
  intros [Hr Hf]. split; [| split; [| split]].
  - unfold HandleInput. now rewrite Hf.
  - split; [eexists |]; reflexivity.
  - reflexivity.
  - intros input a1 a2. split; [intros event; reflexivity |].
    assert (Hc : forall t, tview.stopped t = tview.stopped (Application a) ->
                   cancelButton (withApplication t a) = a).
    { intros t Ht. unfold cancelButton, tview.SetRootMainView. simpl. rewrite Ht.
      destruct a as [ai0 deck i r [rt fc st] cv ff]. simpl in *. now subst. }
    split; [now apply Hc |]. split; [now apply Hc |]. split; [reflexivity |].
    intros [Hi Hm]. unfold HandleInput. cbn [a2 Application withApplication tview.focus].
    change (Revealed a2) with (Revealed a). change (CurrentCardIdx a2) with (CurrentCardIdx a).
    change (Deck a2) with (Deck a).
    destruct (Revealed a); simpl.
    + unfold int_rem, goint.add.
      destruct (Z.eqb_spec (goint.len (Deck a)) 0) as [E | _]; [lia |].
      rewrite wrap_small by (unfold goint.min_int, goint.max_int in *; lia).
      rewrite Z.rem_mod_nonneg by lia. simpl.
      apply (UpdateCardView_valid
               (withSession ((CurrentCardIdx a + 1) mod goint.len (Deck a)) false a2)).
      simpl. apply Z.mod_pos_bound. lia.
    + apply (UpdateCardView_valid (withSession (CurrentCardIdx a) true a2)). exact Hi.
Qed.

Lemma dialog_cancel_restores_witness :
  cancelButton (ShowNewCardDialog sampleApp) = sampleApp.
Proof.
  destruct (dialog_cancel_restores sampleApp) as (_ & _ & _ & H).
  - split; reflexivity.
  - exact (proj1 (proj2 (H EmptyString))).
Defined.

(** ** Saving a card: all outcomes *)

Lemma appendable_dec (path text : string) (f : os.FS) :
  appendable path text f \/ ~ appendable path text f.
Proof.
  unfold appendable.
  destruct (Nat.le_gt_cases (String.length text) (os.free f)) as [Hle | Hgt];
    [| right; intros [_ H]; lia].
  destruct (os.files f !! path) as [x |] eqn:Hx.
  - destruct (os.writable x) eqn:Hw.
    + left. split; [intros y [= <-]; exact Hw | exact Hle].
    + right. intros [H _]. specialize (H x eq_refl). congruence.
  - left. split; [intros y [=] | exact Hle].
Qed.

(** X4. [SaveNewCard] has two kinds of outcome, for every text, state with
    an index within the deck, and world. Either the card is in the deck and
    its line in the file, the main view is back with the card view rendered,
    and nothing was printed; or the application is stopped with one error
    line printed after the dialog was left as root, and then deck and files
    are untouched if it was the translation that failed. *)
Theorem SaveNewCard_outcomes (text : string) (a : App) (w : World) :
  0 <= CurrentCardIdx a <= goint.len (Deck a) ->
  exists a' w',
    SaveNewCard text a w = Ret (a', w')
    /\ ((exists zh py cardJSON,
           Translate (service w) (ai a) text = Ok (zh, py)
           /\ json.MarshalFlashcard (newCardOver (Deck a) text zh py) = Ok cardJSON
           /\ Deck a' = (Deck a ++ [newCardOver (Deck a) text zh py])%list
           /\ content (FlashcardsFile a) (fs w')
              = (content (FlashcardsFile a) (fs w) ++ cardJSON ++ nl)%string
           /\ Browsing a' /\ inSync a'
           /\ tview.stopped (Application a') = tview.stopped (Application a)
           /\ session a' = session a
           /\ stdout w' = stdout w)
        \/ (tview.stopped (Application a') = true
            /\ tview.root (Application a') = tview.root (Application a)
            /\ (exists msg e, stdout w' = (stdout w ++ [(msg, Some e)])%list)
            /\ (forall e, Translate (service w) (ai a) text = Err e ->
                          Deck a' = Deck a /\ fs w' = fs w))).
Proof.
  intros Hi.
  destruct (Translate (service w) (ai a) text) as [[zh py] | e] eqn:Ht.
  - destruct (MarshalFlashcard_total (newCardOver (Deck a) text zh py)) as [cardJSON Hm].
    destruct (appendable_dec (FlashcardsFile a) (cardJSON ++ nl) (fs w)) as [Ha | Ha].
    + destruct (SaveNewCard_saved text zh py cardJSON a w Ht Hm Ha Hi)
        as (view & f2 & E & Hc & _).
      eexists _, _. split; [exact E |]. left. exists zh, py, cardJSON.
      split; [reflexivity |]. split; [exact Hm |]. split; [reflexivity |].
      split; [exact Hc |]. split; [split; reflexivity |]. split; [| repeat split].
      unfold SaveNewCard in E. rewrite Ht in E. unfold newCardOver in *.
      cbn [FlashcardsFile withDeck] in E.
      destruct (append_succeeds _ _ _ Ha) as (f1 & f3 & Ho & Hw & _).
      rewrite Ho, Hm, Hw in E.
      match type of E with
      | context [UpdateCardView ?b] =>
        destruct (UpdateCardView b) as [a2 | p] eqn:Hu; [| discriminate E]
      end.
      simpl in E. injection E as E _. rewrite <- E.
      exact (UpdateCardView_idempotent _ _ Hu).
    + destruct (SaveNewCard_unsaved text zh py cardJSON a w Ht Hm Ha)
        as (f2 & msg & e & n & E & _ & _).
      eexists _, _. split; [exact E |]. right.
      split; [reflexivity |]. split; [reflexivity |]. split; [simpl; eauto |].
      intros e' H. discriminate H.
  - eexists _, _. split; [unfold SaveNewCard; rewrite Ht; reflexivity |]. right.
    split; [reflexivity |]. split; [reflexivity |]. split; [simpl; eauto |].
    intros _ _. split; reflexivity.
Qed.

Lemma SaveNewCard_outcomes_witness :
  exists a' w',
    SaveNewCard "Hello" editingApp (sampleWorld sampleFile 1000 Failed) = Ret (a', w')
    /\ Deck a' = [dog; cat] /\ tview.stopped (Application a') = true.
Proof.
  destruct (SaveNewCard_outcomes "Hello" editingApp (sampleWorld sampleFile 1000 Failed))
    as (a' & w' & E & H).
  - vm_compute. split; discriminate.
  - exists a', w'. split; [exact E |].
    destruct H as [(zh & py & cardJSON & Ht & _) | (Hs & _ & _ & Hd)].
    + vm_compute in Ht. discriminate Ht.
    + split; [| exact Hs]. exact (proj1 (Hd TransportError eq_refl)).
Defined.

(** ** What saving keeps *)

Lemma recordLines_snoc (deck : list Flashcard) (c : Flashcard) :
  recordLines (deck ++ [c]) = (recordLines deck ++ recordLine c)%string.
Proof.
  induction deck as [| d deck IH].
  - simpl. now rewrite append_nil_r.
  - change (recordLines ((d :: deck) ++ [c]))
      with (recordLine d ++ recordLines (deck ++ [c]))%string.
    rewrite IH. symmetry. apply append_assoc.
Qed.

Lemma recordLine_Marshal (c : Flashcard) (cardJSON : string) :
  json.MarshalFlashcard c = Ok cardJSON -> recordLine c = (cardJSON ++ nl)%string.
Proof.
  unfold recordLine, recordJSON. now intros ->.
Qed.

Lemma sequentialIDs_snoc (deck : list Flashcard) (c : Flashcard) :
  sequentialIDs deck -> ID c = goint.len deck + 1 -> sequentialIDs (deck ++ [c]).
Proof.
  intros Hs Hc i x Hx. apply lookup_app_Some in Hx as [Hx | [Hge Hx]].
  - now apply Hs.
  - apply list_lookup_singleton_Some in Hx as [Hi <-].
    rewrite Hc. unfold goint.len. lia.
Qed.

(** Identifiers in sequence are pairwise different. *)
Lemma sequentialIDs_NoDup (deck : list Flashcard) :
  sequentialIDs deck -> NoDup (ID <$> deck).
Proof.
  intros Hs. apply NoDup_alt. intros i j z Hi Hj.
  rewrite list_lookup_fmap in Hi, Hj.
  destruct (deck !! i) as [ci |] eqn:Ei; [| discriminate].
  destruct (deck !! j) as [cj |] eqn:Ej; [| discriminate].
  simpl in *. injection Hi as Hi. injection Hj as Hj.
  apply Hs in Ei, Ej. lia.
Qed.

(** X5. A successful [SaveNewCard] keeps memory and file in step and the
    identifiers in sequence: when the record file holds the lines of the
    deck before, it holds the lines of the deck after; when the cards carry
    the identifiers 1, 2, ... before, they do so after, and no two cards
    share an identifier. *)
Theorem SaveNewCard_keeps_step (text zh py cardJSON : string) (a : App) (w : World) :
  Translate (service w) (ai a) text = Ok (zh, py) ->
  json.MarshalFlashcard (newCardOver (Deck a) text zh py) = Ok cardJSON ->
  appendable (FlashcardsFile a) (cardJSON ++ nl) (fs w) ->
  0 <= CurrentCardIdx a <= goint.len (Deck a) ->
  goint.len (Deck a) < goint.max_int ->
  exists a' w',
    SaveNewCard text a w = Ret (a', w')
    /\ FlashcardsFile a' = FlashcardsFile a
    /\ (persisted a w -> persisted a' w')
    /\ (sequentialIDs (Deck a) ->
        sequentialIDs (Deck a') /\ NoDup (ID <$> Deck a')).
Proof.
  intros Ht Hm Ha Hi Hlen.
  destruct (SaveNewCard_saved text zh py cardJSON a w Ht Hm Ha Hi)
    as (view & f2 & E & Hc & _).
  eexists _, _. split; [exact E |]. split; [reflexivity |]. split.
  - unfold persisted. simpl. intros Hp.
    rewrite Hc, Hp, recordLines_snoc. f_equal. symmetry.
    now apply recordLine_Marshal.
  - simpl. intros Hs.
    assert (Hs' : sequentialIDs (Deck a ++ [newCardOver (Deck a) text zh py])).
    { apply sequentialIDs_snoc; [exact Hs |]. simpl. unfold goint.add.
      apply wrap_small. unfold goint.len, goint.min_int, goint.max_int in *. lia. }
    split; [exact Hs' | now apply sequentialIDs_NoDup].
Qed.

Lemma SaveNewCard_keeps_step_witness :
  exists a' w',
    SaveNewCard "Hello" sampleApp (sampleWorld sampleFile 1000 (replyWith "你好" "Nǐ hǎo"))
    = Ret (a', w')
    /\ persisted a' w' /\ sequentialIDs (Deck a').
Proof.
  destruct (SaveNewCard_keeps_step "Hello" "你好" "Nǐ hǎo"
              (recordJSON (mkFlashcard 3 "Hello" "你好" "Nǐ hǎo"))
              sampleApp (sampleWorld sampleFile 1000 (replyWith "你好" "Nǐ hǎo")))
    as (a' & w' & E & _ & Hp & Hs).
  - vm_compute. reflexivity.
  - vm_compute. reflexivity.
  - split.
    + intros x. vm_compute. intros [= <-]. reflexivity.
    + vm_compute. lia.
  - vm_compute. split; discriminate.
  - vm_compute. reflexivity.
  - exists a', w'. split; [exact E |]. split.
    + apply Hp. vm_compute. reflexivity.
    + apply Hs. intros [| [| i]] c; simpl; intros [= <-]; reflexivity.
Defined.

(** ** Loading, all outcomes *)

(** What the loop of [LoadDeck] returns: the cards the decoder reads,
    behind the deck it was given, and the error of the value after them
    if the decoder fails there. *)
Lemma decodeCards_result (fuel : nat) :
  forall (dec : string) (deck deck' : list Flashcard) (err : option error),
    decodeCards fuel dec deck = Some (deck', err) ->
    exists cards dec',
      reads dec cards dec'
      /\ deck' = (deck ++ cards)%list
      /\ match err with
         | None => exists d, json.More dec' = (false, d)
         | Some e =>
           exists d1 e0 d2,
             e = JSONError e0 /\ json.More dec' = (true, d1)
             /\ json.DecodeFlashcard d1 = (Err e0, d2)
         end.
Proof.
  induction fuel as [| fuel IH]; intros dec deck deck' err; [discriminate |]. simpl.
  destruct (json.More dec) as [[] dec1] eqn:Hm.
  - destruct (json.DecodeFlashcard dec1) as [[card | e0] dec2] eqn:Hd.
    + intros H. destruct (IH _ _ _ _ H) as (cards & dec' & Hr & -> & He).
      exists (card :: cards), dec'. split; [eapply reads_card; eassumption |].
      split; [now rewrite <- app_assoc | exact He].
    + intros [= <- <-]. exists [], dec. split; [constructor |].
      split; [now rewrite app_nil_r | eauto 6].
  - intros [= <- <-]. exists [], dec. split; [constructor |].
    split; [now rewrite app_nil_r | eauto].
Qed.

Lemma LoadDeck_shape (filename : string) (a : App) (w : World) :
  exists cards err,
    LoadDeck filename a w
    = Some (withDeck (Deck a ++ cards) (withFlashcardsFile filename a), err).
Proof.
  unfold LoadDeck. destruct (os.Open filename (fs w)) as [text | e].
  - destruct (decodeCards_total (S (String.length text)) text
                (Deck (withFlashcardsFile filename a))) as [[deck' err] E]; [lia |].
    rewrite E. destruct (decodeCards_result _ _ _ _ _ E) as (cards & dec & _ & -> & _).
    eauto.
  - exists [], (Some (OSError e)). rewrite app_nil_r. destruct a; reflexivity.
Qed.

(** X6. [LoadDeck] returns, for every path, state and world. It sets the
    path and puts cards behind the deck that is there, of which it drops and
    reorders nothing; session and views are as before. When the file cannot
    be opened it adds no card and returns that error; otherwise the cards
    added are those the decoder reads from the file's content one after the
    other, and the error, if any, is the decoder's at the value after them.
    *)
Theorem LoadDeck_appends (filename : string) (a : App) (w : World) :
  exists cards err,
    LoadDeck filename a w
    = Some (withDeck (Deck a ++ cards) (withFlashcardsFile filename a), err)
    /\ (forall e, os.Open filename (fs w) = Err e -> cards = [] /\ err = Some (OSError e))
    /\ (forall text,
          os.Open filename (fs w) = Ok text ->
          exists dec,
            reads text cards dec
            /\ match err with
               | None => exists d, json.More dec = (false, d)
               | Some e =>
                 exists d1 e0 d2,
                   e = JSONError e0 /\ json.More dec = (true, d1)
                   /\ json.DecodeFlashcard d1 = (Err e0, d2)
               end).
Proof.
  unfold LoadDeck. destruct (os.Open filename (fs w)) as [text | e] eqn:Ho.
  - destruct (decodeCards_total (S (String.length text)) text
                (Deck (withFlashcardsFile filename a))) as [[deck' err] E]; [lia |].
    rewrite E. destruct (decodeCards_result _ _ _ _ _ E) as (cards & dec & Hr & -> & He).
    exists cards, err. split; [reflexivity |]. split; [intros e [=] |].
    intros text' [= <-]. eauto.
  - exists [], (Some (OSError e)). split.
    + rewrite app_nil_r. destruct a; reflexivity.
    + split; [intros e' [= <-]; split; reflexivity | intros text [=]].
Qed.

Lemma blank_More (text : string) : blank text -> json.More text = (false, EmptyString).
Proof.
  unfold blank, json.nonSpace, json.More, json.peek.
  destruct (json.skipSpace text); [reflexivity | discriminate].
Qed.

(** The application that [NewApp] makes. *)
Lemma NewApp_Ret (apiKey model : string) :
  apiKey <> EmptyString -> model <> EmptyString ->
  NewApp apiKey model
  = Ret {| ai := mkAI apiKey model; Deck := []; CurrentCardIdx := 0; Revealed := false;
           Application := tview.mkApplication tview.RootMainView tview.FocusTextView false;
           CardView := EmptyString; FlashcardsFile := EmptyString |}.
Proof.
  intros Hk Hm. unfold NewApp, NewAI.
  destruct (String.eqb_spec apiKey EmptyString); [contradiction |].
  destruct (String.eqb_spec model EmptyString); [contradiction |]. reflexivity.
Qed.

(** ** Starting up *)

(** X7. Without a key, neither as flag nor in the environment, [main] prints
    the request for one and exits with status 1, whatever the file and the
    model are; with a key and an empty model it panics in [NewAI]. *)
Theorem main_configuration (apiKey env filePath model : string) (w : World) :
  (effectiveKey apiKey env = EmptyString ->
   main apiKey env filePath model w
   = Some (Ret (Exit 1, Println "Please provide an API key" None w)))
  /\ (effectiveKey apiKey env <> EmptyString -> model = EmptyString ->
      main apiKey env filePath model w
      = Some (Panics (PanicString "OpenAI API key and model must be provided"))).
Proof.
  unfold effectiveKey, main. split.
  - intros ->. reflexivity.
  - intros Hk ->.
    destruct (String.eqb_spec (if String.eqb apiKey EmptyString then env else apiKey)
                EmptyString) as [E | _]; [contradiction |].
    unfold NewApp, NewAI. rewrite orb_true_r. reflexivity.
Qed.

Lemma main_configuration_witness :
  main "" "secret" "flashcards.jsonl" "" (sampleWorld sampleFile 1000 Failed)
  = Some (Panics (PanicString "OpenAI API key and model must be provided")).
Proof.
  apply (main_configuration "" "secret" "flashcards.jsonl" "");
    [discriminate | reflexivity].
Defined.

(** X8. With a key and a model, [main] does not panic, whatever the file
    holds. It exits with status 1 exactly when [LoadDeck] returns an error,
    which it prints. Otherwise the application is ready to run on the deck
    that was loaded, with the key in effect: browsing, at index 0, the card
    concealed, not stopped, the card view rendered, and the file's path kept
    for saving; nothing was printed. *)
Theorem main_start (apiKey env filePath model : string) (w : World) :
  effectiveKey apiKey env <> EmptyString -> model <> EmptyString ->
  exists (cards : list Flashcard) (err : option error) (r : started) (w' : World),
    LoadDeck filePath
      {| ai := mkAI (effectiveKey apiKey env) model; Deck := []; CurrentCardIdx := 0;
         Revealed := false;
         Application := tview.mkApplication tview.RootMainView tview.FocusTextView false;
         CardView := EmptyString; FlashcardsFile := EmptyString |} w
    = Some ({| ai := mkAI (effectiveKey apiKey env) model; Deck := cards;
               CurrentCardIdx := 0; Revealed := false;
               Application :=
                 tview.mkApplication tview.RootMainView tview.FocusTextView false;
               CardView := EmptyString; FlashcardsFile := filePath |}, err)
    /\ main apiKey env filePath model w = Some (Ret (r, w'))
    /\ match err with
       | Some e => r = Exit 1 /\ w' = Println "Error loading deck:" (Some e) w
       | None =>
         w' = w
         /\ exists a,
              r = Running a
              /\ ai a = mkAI (effectiveKey apiKey env) model
              /\ Deck a = cards /\ FlashcardsFile a = filePath
              /\ session a = (0, false)
              /\ Browsing a /\ tview.stopped (Application a) = false
              /\ inSync a
       end.
Proof.
  intros Hk Hm. unfold main. fold (effectiveKey apiKey env).
  destruct (String.eqb_spec (effectiveKey apiKey env) EmptyString) as [E | _];
    [contradiction |].
  rewrite (NewApp_Ret _ _ Hk Hm).
  match goal with |- context [LoadDeck filePath ?b w] => set (app := b) end.
  destruct (LoadDeck_shape filePath app w) as (cards & err & E).
  rewrite E. exists cards, err.
  destruct err as [e |].
  - eexists _, _. split; [reflexivity |]. split; [reflexivity |]. split; reflexivity.
  - destruct (UpdateCardView_returns
                (withDeck (Deck app ++ cards) (withFlashcardsFile filePath app)))
      as [text Hu].
    { simpl. destruct cards as [| c cards]; [now left | right].
      unfold goint.len. simpl. lia. }
    unfold SetupUI. rewrite Hu.
    eexists _, _. split; [reflexivity |]. split; [reflexivity |].
    split; [reflexivity |]. eexists. split; [reflexivity |].
    simpl. repeat (split; [reflexivity |]). split; [split; reflexivity |].
    split; [reflexivity |].
    apply inSync_withApplication. exact (UpdateCardView_idempotent _ _ Hu).
Qed.

Lemma main_start_witness :
  exists a,
    main "key" "" "flashcards.jsonl" "gpt-4o-mini" (sampleWorld sampleFile 1000 Failed)
    = Some (Ret (Running a, sampleWorld sampleFile 1000 Failed))
    /\ Deck a = [dog; cat] /\ inSync a.
Proof.
  destruct (main_start "key" "" "flashcards.jsonl" "gpt-4o-mini"
              (sampleWorld sampleFile 1000 Failed))
    as (cards & err & r & w' & El & Em & H); [discriminate | discriminate |].
  vm_compute in El. injection El as <- <-.
  destruct H as (-> & a & -> & _ & Hd & _ & _ & _ & _ & Hs).
  exists a. split; [exact Em |]. split; [exact Hd | exact Hs].
Defined.

(** X9. A deck file that is missing or may not be read ends [main] with
    status 1 and the error of the opening printed; [LoadDeck] has then set
    the path and added no card. *)
Theorem main_unreadable_file (apiKey env filePath model : string) (w : World) :
  effectiveKey apiKey env <> EmptyString -> model <> EmptyString ->
  (os.files (fs w) !! filePath = None
   \/ exists x, os.files (fs w) !! filePath = Some x /\ os.readable x = false) ->
  exists e,
    (forall a, LoadDeck filePath a w = Some (withFlashcardsFile filePath a, Some (OSError e)))
    /\ main apiKey env filePath model w
       = Some (Ret (Exit 1, Println "Error loading deck:" (Some (OSError e)) w)).
Proof.
  intros Hk Hm Hf.
  assert (Ho : exists e, os.Open filePath (fs w) = Err e).
  { unfold os.Open. destruct Hf as [-> | (x & -> & ->)]; eauto. }
  destruct Ho as [e Ho]. exists e.
  assert (Hl : forall a,
             LoadDeck filePath a w = Some (withFlashcardsFile filePath a, Some (OSError e)))
    by (intros a; unfold LoadDeck; now rewrite Ho).
  split; [exact Hl |].
  unfold main. fold (effectiveKey apiKey env).
  destruct (String.eqb_spec (effectiveKey apiKey env) EmptyString) as [E | _];
    [contradiction |].
  rewrite (NewApp_Ret _ _ Hk Hm), Hl. reflexivity.
Qed.

Lemma main_unreadable_file_witness :
  main "key" "" "missing.jsonl" "gpt-4o-mini" (sampleWorld sampleFile 1000 Failed)
  = Some (Ret (Exit 1,
               Println "Error loading deck:" (Some (OSError os.ErrNotExist))
                 (sampleWorld sampleFile 1000 Failed))).
Proof.
  destruct (main_unreadable_file "key" "" "missing.jsonl" "gpt-4o-mini"
              (sampleWorld sampleFile 1000 Failed)) as (e & Hl & Hm);
    [discriminate | discriminate | left; reflexivity |].
  specialize (Hl freshApp). vm_compute in Hl. injection Hl as <-. exact Hm.
Defined.

(** X10. A deck file that is empty or holds blanks only loads as no card,
    without error: [main] then starts on the empty deck, the card view
    showing the placeholder. *)
Theorem main_blank_file (apiKey env filePath model text : string) (w : World) :
  effectiveKey apiKey env <> EmptyString -> model <> EmptyString ->
  os.Open filePath (fs w) = Ok text -> blank text ->
  (forall a, LoadDeck filePath a w = Some (withFlashcardsFile filePath a, None))
  /\ exists a,
       main apiKey env filePath model w = Some (Ret (Running a, w))
       /\ Deck a = [] /\ CardView a = "No cards in deck!"%string.
Proof.
  intros Hk Hm Ho Hb.
  assert (Hl : forall a, LoadDeck filePath a w = Some (withFlashcardsFile filePath a, None)).
  { intros a. unfold LoadDeck. rewrite Ho. simpl. rewrite (blank_More _ Hb).
    destruct a; reflexivity. }
  split; [exact Hl |].
  unfold main. fold (effectiveKey apiKey env).
  destruct (String.eqb_spec (effectiveKey apiKey env) EmptyString) as [E | _];
    [contradiction |].
  rewrite (NewApp_Ret _ _ Hk Hm), Hl. simpl.
  eexists. split; [reflexivity |]. split; reflexivity.
Qed.

Lemma main_blank_file_witness :
  exists a,
    main "key" "" "flashcards.jsonl" "gpt-4o-mini" (sampleWorld (nl ++ "  " ++ nl) 1000 Failed)
    = Some (Ret (Running a, sampleWorld (nl ++ "  " ++ nl) 1000 Failed))
    /\ Deck a = [].
Proof.
  destruct (main_blank_file "key" "" "flashcards.jsonl" "gpt-4o-mini" (nl ++ "  " ++ nl)
              (sampleWorld (nl ++ "  " ++ nl) 1000 Failed))
    as (_ & a & E & Hd & _);
    [discriminate | discriminate | reflexivity | reflexivity |].
  exists a. split; assumption.
Defined.

(** * The record file gives back what was written *)

(** ** Numbers *)

Lemma digits_uint_acc (d : Decimal.uint) :
  forall acc : positive,
    json.digits (Z.pos acc) (NilEmpty.string_of_uint d)
    = Some (Z.pos (Pos.of_uint_acc d acc)).
Proof.
  induction d; intros acc; simpl; try reflexivity.
  all: match goal with
       | |- json.digits ?x _ = Some (Z.pos (Pos.of_uint_acc _ ?y)) =>
         replace x with (Z.pos y) by lia
       end; apply IHd.
Qed.

Lemma digits_uint (d : Decimal.uint) :
  json.digits 0 (NilEmpty.string_of_uint d) = Some (Z.of_N (Pos.of_uint d)).
Proof.
  induction d; simpl; try reflexivity; try exact IHd.
  all: match goal with
       | |- json.digits ?x _ = _ => change x with (Z.pos (Z.to_pos x))
       end; rewrite digits_uint_acc; reflexivity.
Qed.

(** The decimal text of a positive number: not empty, digits only, and
    not starting with a zero. *)
Lemma nzhead_head (d : Decimal.uint) :
  match Decimal.nzhead d with Decimal.D0 _ => False | _ => True end.
Proof.
  induction d; simpl; auto.
Qed.

Lemma to_uint_head (p : positive) :
  match Pos.to_uint p with
  | Decimal.Nil | Decimal.D0 _ => False
  | _ => True
  end.
Proof.
  pose proof (DecimalPos.Unsigned.to_of (Pos.to_uint p)) as H.
  rewrite DecimalPos.Unsigned.of_to in H. simpl in H.
  pose proof (DecimalPos.Unsigned.to_uint_nonzero p) as Hz.
  pose proof (DecimalPos.Unsigned.to_uint_nonnil p) as Hn.
  unfold Decimal.unorm in H. pose proof (nzhead_head (Pos.to_uint p)) as Hh.
  destruct (Pos.to_uint p) as [| d | | | | | | | | |] eqn:E; auto.
  simpl in H, Hh. destruct (Decimal.nzhead d) eqn:En; try discriminate H; auto.
Qed.

(** The decimal text of a number other than zero starts with a digit
    from 1 to 9, or with a minus and such a digit; digits follow. *)
Lemma to_uint_text (p : positive) :
  exists c ds,
    NilZero.string_of_uint (Pos.to_uint p) = String c ds
    /\ utf8.between 49 57 c = true
    /\ json.digits 0 (String c ds) = Some (Z.pos p).
Proof.
  pose proof (to_uint_head p) as Hh.
  pose proof (digits_uint (Pos.to_uint p)) as Hd.
  rewrite DecimalPos.Unsigned.of_to in Hd. simpl Z.of_N in Hd.
  unfold NilZero.string_of_uint.
  destruct (Pos.to_uint p) as [| d | d | d | d | d | d | d | d | d | d];
    try contradiction; simpl in *; eexists _, _; (split; [reflexivity |]);
    (split; [reflexivity | exact Hd]).
Qed.

(** [strconv.ParseInt] reads back what [%d] writes of an [int]. *)
Lemma ParseInt_itoa (z : Z) :
  goint.min_int <= z <= goint.max_int -> json.ParseInt (goint.itoa z) = Some z.
Proof.
  intros Hz. unfold goint.itoa, NilZero.string_of_int.
  assert (Hr : (goint.min_int <=? z) && (z <=? goint.max_int) = true)
    by (apply andb_true_intro; split; apply Z.leb_le; lia).
  destruct z as [| p | p]; simpl Z.to_int.
  - reflexivity.
  - destruct (to_uint_text p) as (c & ds & -> & Hc & Hd).
    unfold json.ParseInt.
    assert (Hm : isc c "-" = false /\ isc c "+" = false).
    { unfold isc. split;
        match goal with |- Ascii.eqb c ?x = false =>
          destruct (Ascii.eqb_spec c x) as [-> | _]; [discriminate Hc | reflexivity]
        end. }
    destruct Hm as [-> ->]. rewrite Hd.
    cbn -[goint.min_int goint.max_int Z.leb]. now rewrite Hr.
  - destruct (to_uint_text p) as (c & ds & -> & Hc & Hd).
    unfold json.ParseInt.
    change (isc "-" "-") with true. cbv iota. rewrite Hd.
    cbn -[goint.min_int goint.max_int Z.leb].
    change (- Z.pos p) with (Z.neg p). now rewrite Hr.
Qed.

(** ** Strings through the encoder and back *)

Lemma hex_digit (n : N) :
  (n < 16)%N -> json.hexval (json.hex n) = n /\ json.isHex (json.hex n) = true.
Proof.
  intros H.
  assert (E : exists k, (k < 16)%nat /\ n = N.of_nat k)
    by (exists (N.to_nat n); split; lia).
  destruct E as (k & Hk & ->).
  do 16 (destruct k as [| k]; [split; reflexivity |]). lia.
Qed.

Lemma byte_code (c : ascii) : utf8.byte (utf8.code c) = c.
Proof.
  unfold utf8.byte, utf8.code.
  rewrite N.mod_small by apply N_ascii_bounded. apply ascii_N_embedding.
Qed.

Lemma isc_eq (c d : ascii) : isc c d = true -> c = d.
Proof.
  unfold isc. now destruct (Ascii.eqb_spec c d).
Qed.

(** A valid encoding is valid whatever follows it. *)
Lemma width_stable (c : ascii) (rest : string) (k : nat) :
  (utf8.code c <? 128)%N = false ->
  utf8.width (String c rest) = S k ->
  exists x y,
    rest = (x ++ y)%string /\ String.length x = k
    /\ forall y', utf8.width (String c (x ++ y')) = S k.
Proof.
  intros Hc. unfold utf8.width. rewrite Hc.
  destruct rest as [| c1 s2]; [discriminate |].
  destruct (utf8.between 194 223 c) eqn:H2.
  { destruct (utf8.cont c1) eqn:H1; intros [= <-].
    exists (String c1 EmptyString), s2. repeat split.
    intros y'. simpl. now rewrite H1. }
  destruct s2 as [| c2 s3]; [discriminate |].
  match goal with |- context [if ?b then 3%nat else _] => destruct b eqn:H3 end.
  { intros [= <-]. exists (String c1 (String c2 EmptyString)), s3. repeat split.
    intros y'. simpl. now rewrite H3. }
  destruct s3 as [| c3 s4]; [discriminate |].
  match goal with |- context [if ?b then 4%nat else _] => destruct b eqn:H4 end;
    [| discriminate].
  intros [= <-]. exists (String c1 (String c2 (String c3 EmptyString))), s4. repeat split.
  intros y'. simpl. now rewrite H3, H4.
Qed.

(** In copy mode the encoder takes the bytes over. *)
Lemma appendStringFrom_copy (x y : string) :
  json.appendStringFrom (String.length x) 0 (x ++ y)
  = (x ++ json.appendStringFrom 0 0 y)%string.
Proof.
  induction x as [| c x IH]; simpl; [now destruct y | now rewrite IH].
Qed.

Lemma getu4_low (c : ascii) (t : string) :
  (utf8.code c <? 128)%N = true ->
  json.getu4
    (String "\" (String "u" (String "0" (String "0"
       (String (json.hex (utf8.code c / 16))
          (String (json.hex (utf8.code c mod 16)) t))))))
  = Some (utf8.code c).
Proof.
  intros Hc.
  assert (Hhi : (utf8.code c / 16 < 16)%N)
    by (apply N.ltb_lt in Hc; apply N.Div0.div_lt_upper_bound; lia).
  assert (Hlo : (utf8.code c mod 16 < 16)%N) by (apply N.mod_lt; lia).
  destruct (hex_digit _ Hhi) as [Vhi Xhi]. destruct (hex_digit _ Hlo) as [Vlo Xlo].
  unfold json.getu4. rewrite Xhi, Xlo, Vhi, Vlo.
  change (isc "\" "\" && isc "u" "u" && json.isHex "0" && json.isHex "0" && true && true)
    with true. cbv iota. f_equal.
  change (json.hexval "0") with 0%N.
  rewrite (N.div_mod (utf8.code c) 16) at 3 by lia. lia.
Qed.

Lemma low_rune (c : ascii) :
  (utf8.code c <? 128)%N = true ->
  json.isSurrogate (utf8.code c) = false
  /\ utf8.EncodeRune (utf8.code c) = String c EmptyString.
Proof.
  intros Hc. pose proof Hc as Hlt. apply N.ltb_lt in Hlt. split.
  - unfold json.isSurrogate. apply andb_false_intro1. apply N.leb_gt. lia.
  - unfold utf8.EncodeRune. rewrite Hc. now rewrite byte_code.
Qed.

Lemma high_isc (c d : ascii) :
  (utf8.code c <? 128)%N = false -> (utf8.code d <? 128)%N = true -> isc c d = false.
Proof.
  intros Hc Hd. unfold isc. destruct (Ascii.eqb_spec c d) as [-> | _];
    [congruence | reflexivity].
Qed.

(** Decoding undoes the encoding of a string, up to the bytes that are
    no valid UTF-8. *)
Lemma unquote_escaped (s : string) :
  forall k d : nat,
    (d = 0%nat \/ k = 0%nat) ->
    json.unquoteFrom k 0 (json.appendStringFrom k d s)
    = Some (sanitizeFrom k (json.dropBytes d s)).
Proof.
  induction s as [| c rest IH]; intros k d Hkd.
  { destruct d, k; reflexivity. }
  destruct d as [| d].
  2:{ destruct Hkd as [Hd | ->]; [discriminate |].
      cbn [json.appendStringFrom json.dropBytes]. apply IH. now right. }
  cbn [json.dropBytes]. destruct k as [| k].
  2:{ cbn [json.appendStringFrom json.unquoteFrom sanitizeFrom].
      rewrite (IH k 0%nat) by now left. reflexivity. }
  cbn [json.appendStringFrom sanitizeFrom].
  destruct (utf8.code c <? 128)%N eqn:Hc.
  - (* ASCII *)
    destruct (json.htmlSafe c) eqn:Hs.
    { unfold json.htmlSafe in Hs. apply andb_prop in Hs as [Hb Hn].
      apply negb_true_iff in Hn.
      repeat (apply orb_false_elim in Hn as [Hn ?]).
      unfold utf8.between in Hb. apply andb_prop in Hb as [Hlo _].
      apply N.leb_le in Hlo.
      assert (Hlo' : (utf8.code c <? 32)%N = false) by (apply N.ltb_ge; exact Hlo).
      cbn [String.append json.unquoteFrom].
      repeat match goal with H : isc c _ = false |- _ => rewrite H end.
      rewrite Hlo', Hc. cbn [orb]. rewrite (IH 0%nat 0%nat) by now left. reflexivity. }
    destruct (isc c "\" || isc c dq) eqn:Hq.
    { apply orb_prop in Hq as [Hq | Hq]; apply isc_eq in Hq; subst c;
        simpl; rewrite (IH 0%nat 0%nat) by (now left); reflexivity. }
    repeat match goal with
           | |- context [if isc c ?x then _ else _] =>
             destruct (isc c x) eqn:E;
               [apply isc_eq in E; subst c; simpl;
                rewrite (IH 0%nat 0%nat) by (now left); reflexivity | clear E]
           end.
    destruct (low_rune c Hc) as [Hsur Henc].
    cbn [String.append json.unquoteFrom].
    change (isc "\" "\") with true. change (isc "u" "u") with true. cbv iota.
    rewrite (getu4_low c _ Hc), Hsur, Henc, (IH 0%nat 0%nat) by (now left).
    reflexivity.
  - (* from 0x80 on *)
    assert (H32 : (utf8.code c <? 32)%N = false)
      by (apply N.ltb_ge; apply N.ltb_ge in Hc; lia).
    destruct (utf8.width (String c rest)) as [| k] eqn:Hw.
    { simpl. rewrite (IH 0%nat 0%nat) by (now left). reflexivity. }
    assert (Hplain : json.unquoteFrom 0 0 (String c (json.appendStringFrom k 0 rest))
                     = Some (String c (sanitizeFrom k rest))).
    { cbn [json.unquoteFrom].
      rewrite (high_isc c "\" Hc eq_refl), (high_isc c dq Hc eq_refl), H32, Hc.
      cbn [orb].
      assert (Hw' : utf8.width (String c (json.appendStringFrom k 0 rest)) = S k).
      { destruct (width_stable c rest k Hc Hw) as (x & y & Hr & Hx & Hy).
        subst k rest. rewrite appendStringFrom_copy. apply Hy. }
      rewrite Hw', (IH k 0%nat) by (now left). reflexivity. }
    destruct rest as [| c1 [| c2 r]]; try exact Hplain.
    match goal with |- context [if ?b then _ else _] => destruct b eqn:Hu end;
      [| exact Hplain].
    apply andb_prop in Hu as [Hu H2]. apply andb_prop in Hu as [H0 H1].
    apply isc_eq in H0, H1. subst c c1.
    apply orb_prop in H2 as [H2 | H2]; apply isc_eq in H2; subst c2;
      simpl in Hw; injection Hw as <-;
      pose proof (IH 0%nat 2%nat (or_intror eq_refl)) as IH2;
      simpl in IH2 |- *; rewrite IH2; reflexivity.
Qed.

(** A valid text is not changed. *)
Lemma sanitize_valid (s : string) :
  forall k : nat, validFrom k s = true -> sanitizeFrom k s = s.
Proof.
  induction s as [| c rest IH]; intros k; [reflexivity |]. simpl.
  destruct k as [| k]; [| intros H; now rewrite IH].
  destruct (utf8.code c <? 128)%N; [intros H; now rewrite IH |].
  match goal with |- context [match ?w with O => _ | S _ => _ end] => destruct w end;
    [discriminate | intros H; now rewrite IH].
Qed.

(** ** The scanner on what the encoder writes *)

Lemma steps_app (x y : string) :
  forall s : json.scanner,
    steps s (x ++ y) = match steps s x with Some s' => steps s' y | None => None end.
Proof.
  induction x as [| c x IH]; intros s; simpl; [reflexivity |].
  destruct (json.scan s c) as [[] s']; auto.
Qed.

Lemma readValue_steps (x : string) :
  forall (s s' : json.scanner) (all rest : string),
    steps s x = Some s' ->
    json.readValue s all (x ++ rest) = json.readValue s' all rest.
Proof.
  induction x as [| c x IH]; intros s s' all rest; simpl.
  - now intros [= <-].
  - destruct (json.scan s c) as [[] s1]; try discriminate. apply IH.
Qed.

(** A byte of a string that is neither quote nor backslash nor a
    control byte. *)
Lemma scan_plain (c : ascii) (acc : string) (s : json.scanner) :
  isc c dq = false -> isc c "\" = false -> (utf8.code c <? 32)%N = false ->
  json.scan (inString acc s) c = (json.scanContinue, inString (snoc acc c) s).
Proof.
  intros H1 H2 H3. unfold json.scan, inString. simpl. now rewrite H1, H2, H3.
Qed.

Lemma snoc_append (acc : string) (c : ascii) (t : string) :
  (snoc acc c ++ t)%string = (acc ++ String c t)%string.
Proof.
  unfold snoc. now rewrite append_assoc.
Qed.

Lemma steps_piece (p t acc : string) (s : json.scanner) :
  steps (inString acc s) p = Some (inString (acc ++ p) s) ->
  (forall acc', steps (inString acc' s) t = Some (inString (acc' ++ t) s)) ->
  steps (inString acc s) (p ++ t) = Some (inString (acc ++ p ++ t) s).
Proof.
  intros Hp Ht. now rewrite steps_app, Hp, Ht, append_assoc.
Qed.

(** The scanner over an escape whose bytes are known. *)
Ltac known_escape :=
  unfold inString; simpl; unfold snoc; rewrite ?append_assoc; reflexivity.

#[local] Arguments json.isHex : simpl never.

Lemma steps_u00 (h1 h2 : ascii) (acc : string) (s : json.scanner) :
  json.isHex h1 = true -> json.isHex h2 = true ->
  steps (inString acc s) ("\u00" ++ String h1 (String h2 EmptyString))
  = Some (inString (acc ++ "\u00" ++ String h1 (String h2 EmptyString)) s).
Proof.
  intros H1 H2. unfold inString. simpl. unfold json.scan at 1. simpl. rewrite H1.
  unfold json.scan. simpl. rewrite H2.
  unfold snoc. rewrite ?append_assoc. reflexivity.
Qed.

(** The scanner passes over an escaped text and stays in the string. *)
Lemma steps_escaped (t : string) :
  forall (copy drop : nat) (acc : string) (s : json.scanner),
    (drop = 0%nat -> highPrefix copy t) -> (drop <> 0%nat -> copy = 0%nat) ->
    steps (inString acc s) (json.appendStringFrom copy drop t)
    = Some (inString (acc ++ json.appendStringFrom copy drop t) s).
Proof.
  induction t as [| c rest IH]; intros copy drop acc s Hcopy Hdrop.
  { destruct drop, copy; simpl; now rewrite append_nil_r. }
  destruct drop as [| d].
  2:{ cbn [json.appendStringFrom]. rewrite (Hdrop ltac:(discriminate)).
      apply IH; [intros _; now destruct rest | reflexivity]. }
  destruct copy as [| k].
  2:{ cbn [json.appendStringFrom]. destruct (Hcopy eq_refl) as [Hc Hh].
      cbn [steps].
      rewrite scan_plain;
        [| apply (high_isc c dq Hc eq_refl) | apply (high_isc c "\" Hc eq_refl)
         | apply N.ltb_ge; apply N.ltb_ge in Hc; lia].
      rewrite IH by (intros; assumption || congruence). now rewrite snoc_append. }
  cbn [json.appendStringFrom].
  assert (Hrec : forall acc',
             steps (inString acc' s) (json.appendStringFrom 0 0 rest)
             = Some (inString (acc' ++ json.appendStringFrom 0 0 rest) s))
    by (intros acc'; apply IH; [intros _; now destruct rest | congruence]).
  destruct (utf8.code c <? 128)%N eqn:Hc.
  - destruct (json.htmlSafe c) eqn:Hs.
    { unfold json.htmlSafe in Hs. apply andb_prop in Hs as [Hb Hn].
      apply negb_true_iff in Hn.
      repeat (apply orb_false_elim in Hn as [Hn ?]).
      unfold utf8.between in Hb. apply andb_prop in Hb as [Hlo _]. apply N.leb_le in Hlo.
      cbn [String.append steps].
      rewrite scan_plain by (assumption || (apply N.ltb_ge; exact Hlo)).
      rewrite Hrec. now rewrite snoc_append. }
    apply steps_piece; [| exact Hrec].
    destruct (isc c "\" || isc c dq) eqn:Hq.
    { apply orb_prop in Hq as [Hq | Hq]; apply isc_eq in Hq; subst c; known_escape. }
    repeat match goal with
           | |- context [if isc c ?x then _ else _] =>
             destruct (isc c x) eqn:E; [known_escape | clear E]
           end.
    assert (Hhi : (utf8.code c / 16 < 16)%N)
      by (apply N.ltb_lt in Hc; apply N.Div0.div_lt_upper_bound; lia).
    assert (Hlo : (utf8.code c mod 16 < 16)%N) by (apply N.mod_lt; lia).
    destruct (hex_digit _ Hhi) as [_ Xhi]. destruct (hex_digit _ Hlo) as [_ Xlo].
    now apply steps_u00.
  - assert (H32 : (utf8.code c <? 32)%N = false)
      by (apply N.ltb_ge; apply N.ltb_ge in Hc; lia).
    destruct (utf8.width (String c rest)) as [| k] eqn:Hw.
    { apply steps_piece; [known_escape | exact Hrec]. }
    assert (Hplain : steps (inString acc s) (String c (json.appendStringFrom k 0 rest))
                     = Some (inString (acc ++ String c (json.appendStringFrom k 0 rest)) s)).
    { cbn [steps].
      rewrite scan_plain
        by (assumption || apply (high_isc c dq Hc eq_refl)
            || apply (high_isc c "\" Hc eq_refl)).
      rewrite IH; [now rewrite snoc_append | | congruence].
      intros _. exact (width_high c rest k Hc Hw). }
    destruct rest as [| c1 [| c2 r]]; try exact Hplain.
    match goal with |- context [if ?b then _ else _] => destruct b eqn:Hu end;
      [| exact Hplain].
    apply andb_prop in Hu as [Hu H2]. apply andb_prop in Hu as [H0 H1].
    apply isc_eq in H0, H1. subst c c1.
    rewrite <- append_assoc.
    apply orb_prop in H2 as [H2 | H2]; apply isc_eq in H2; subst c2;
      (apply steps_piece;
       [known_escape | intros acc'; apply IH; [discriminate | reflexivity]]).
Qed.

(** The scanner on a number inside an object. *)
Lemma digit19 (c : ascii) :
  utf8.between 49 57 c = true ->
  json.isDigit c = true
  /\ (forall s, json.stateBeginValue_step s c
                = (json.scanContinue, json.goto (json.state1 (String c EmptyString)) s))
  /\ (forall acc s, json.scan (json.goto (json.stateNeg acc) s) c
                    = (json.scanContinue, json.goto (json.state1 (snoc acc c)) s)).
Proof.
  unfold utf8.between. intros H. apply andb_prop in H as [Hlo Hhi].
  apply N.leb_le in Hlo, Hhi.
  assert (E : exists k, (k < 9)%nat /\ utf8.code c = (49 + N.of_nat k)%N)
    by (exists (N.to_nat (utf8.code c - 49)); split; lia).
  destruct E as (k & Hk & E). rewrite <- (byte_code c), E.
  do 9 (destruct k as [| k]; [repeat split |]). lia.
Qed.

Lemma steps_digits (ds : string) :
  forall (acc : string) (z0 n : Z) (f : json.frame),
    json.digits z0 ds = Some n ->
    steps (inObject (json.state1 acc) f) ds = Some (inObject (json.state1 (acc ++ ds)) f).
Proof.
  induction ds as [| c ds IH]; intros acc z0 n f; simpl.
  - intros _. now rewrite append_nil_r.
  - destruct (json.isDigit c) eqn:Hd; [| discriminate]. intros H.
    unfold json.scan. simpl. rewrite Hd.
    change (json.goto (json.state1 (snoc acc c)) (inObject (json.state1 acc) f))
      with (inObject (json.state1 (snoc acc c)) f).
    rewrite (IH _ _ _ _ H). now rewrite snoc_append.
Qed.

Lemma steps_number (z : Z) (ms : list (string * json.value)) (k : string) :
  steps (inObject json.stateBeginValue (json.parseObjectValue ms k)) (goint.itoa z ++ ",")
  = Some (inObject json.stateBeginString
            (json.parseObjectKey (ms ++ [(k, json.Number (goint.itoa z))]) EmptyString)).
Proof.
  unfold goint.itoa, NilZero.string_of_int. destruct z as [| p | p]; simpl Z.to_int.
  - reflexivity.
  - destruct (to_uint_text p) as (c & ds & -> & Hc & Hd).
    destruct (digit19 c Hc) as (Hdig & Hbegin & _).
    simpl in Hd. rewrite Hdig in Hd.
    cbn [String.append steps]. unfold json.scan at 1. cbn [json.step inObject].
    rewrite Hbegin.
    change (json.goto (json.state1 (String c EmptyString))
              (inObject json.stateBeginValue (json.parseObjectValue ms k)))
      with (inObject (json.state1 (String c EmptyString)) (json.parseObjectValue ms k)).
    rewrite steps_app, (steps_digits ds _ _ _ _ Hd). reflexivity.
  - destruct (to_uint_text p) as (c & ds & -> & Hc & Hd).
    destruct (digit19 c Hc) as (Hdig & _ & Hneg).
    simpl in Hd. rewrite Hdig in Hd.
    cbn [String.append steps]. unfold json.scan at 1. simpl.
    change (json.goto (json.stateNeg "-")
              (inObject json.stateBeginValue (json.parseObjectValue ms k)))
      with (json.goto (json.stateNeg "-")
              (inObject json.stateBeginValue (json.parseObjectValue ms k))).
    rewrite Hneg.
    change (json.goto (json.state1 (snoc "-" c))
              (inObject json.stateBeginValue (json.parseObjectValue ms k)))
      with (inObject (json.state1 (String "-" (String c EmptyString)))
              (json.parseObjectValue ms k)).
    rewrite steps_app, (steps_digits ds _ _ _ _ Hd). reflexivity.
Qed.

Lemma steps_chain (x y : string) (s s' : json.scanner) :
  steps s x = Some s' -> steps s (x ++ y) = steps s' y.
Proof.
  intros H. now rewrite steps_app, H.
Qed.

(** The scanner on a string member: from the quote that opens the key
    to the quote that closes the value. *)
Lemma steps_member (s : json.scanner) (name text : string)
    (ms : list (string * json.value)) :
  steps s (dqs ++ name ++ dqs ++ ":" ++ dqs)
  = Some (inObject (json.stateInString EmptyString) (json.parseObjectValue ms name)) ->
  steps s ((dqs ++ name ++ dqs ++ ":" ++ dqs) ++ json.appendStringFrom 0 0 text ++ dqs)
  = Some (inObject json.stateEndValue
            (json.parseObjectValue
               (ms ++ [(name, json.Str (json.appendStringFrom 0 0 text))]) name)).
Proof.
  intros Hpre. rewrite (steps_chain _ _ _ _ Hpre).
  change (inObject (json.stateInString EmptyString) (json.parseObjectValue ms name))
    with (inString EmptyString
            (inObject json.stateBeginValue (json.parseObjectValue ms name))).
  rewrite (steps_chain _ dqs _ _
             (steps_escaped text 0 0 EmptyString _
                ltac:(intros; exact I) ltac:(congruence))).
  reflexivity.
Qed.

(** The scanner passes over the encoding of a card up to its closing
    brace, and is then behind the last member of the object. *)
Lemma steps_card (c : Flashcard) (cardJSON : string) :
  json.MarshalFlashcard c = Ok cardJSON ->
  exists pre,
    cardJSON = (pre ++ "}")%string
    /\ steps json.reset pre
       = Some (inObject json.stateEndValue
                 (json.parseObjectValue
                    [("id", json.Number (goint.itoa (ID c)));
                     ("en", json.Str (json.appendStringFrom 0 0 (English c)));
                     ("zh", json.Str (json.appendStringFrom 0 0 (Chinese c)));
                     ("pinyin", json.Str (json.appendStringFrom 0 0 (Pinyin c)))]
                    "pinyin")).
Proof.
  intros Hm.
  set (en := json.appendStringFrom 0 0 (English c)).
  set (zh := json.appendStringFrom 0 0 (Chinese c)).
  set (py := json.appendStringFrom 0 0 (Pinyin c)).
  exists (("{" ++ dqs ++ "id" ++ dqs ++ ":")
          ++ (goint.itoa (ID c) ++ ",")
          ++ ((dqs ++ "en" ++ dqs ++ ":" ++ dqs) ++ en ++ dqs)
          ++ ","
          ++ ((dqs ++ "zh" ++ dqs ++ ":" ++ dqs) ++ zh ++ dqs)
          ++ ","
          ++ ((dqs ++ "pinyin" ++ dqs ++ ":" ++ dqs) ++ py ++ dqs))%string.
  split.
  - unfold json.MarshalFlashcard, json.member, json.appendString in Hm.
    injection Hm as <-. unfold en, zh, py.
    repeat (simpl; rewrite ?append_assoc). reflexivity.
  - assert (H0 : steps json.reset ("{" ++ dqs ++ "id" ++ dqs ++ ":")
                 = Some (inObject json.stateBeginValue (json.parseObjectValue [] "id")))
      by reflexivity.
    assert (Hkey : forall (ms : list (string * json.value)) (name : string),
               name = "en"%string \/ name = "zh"%string \/ name = "pinyin"%string ->
               steps (inObject json.stateBeginString (json.parseObjectKey ms EmptyString))
                 (dqs ++ name ++ dqs ++ ":" ++ dqs)
               = Some (inObject (json.stateInString EmptyString)
                         (json.parseObjectValue ms name)))
      by (intros ms name [-> | [-> | ->]]; reflexivity).
    assert (Hcomma : forall (ms : list (string * json.value)) (k : string),
               steps (inObject json.stateEndValue (json.parseObjectValue ms k)) ","
               = Some (inObject json.stateBeginString
                         (json.parseObjectKey ms EmptyString))) by reflexivity.
    rewrite (steps_chain _ _ _ _ H0).
    rewrite (steps_chain _ _ _ _ (steps_number (ID c) [] "id")).
    rewrite (steps_chain _ _ _ _
               (steps_member _ "en" (English c) _ (Hkey _ "en"%string ltac:(auto)))).
    rewrite (steps_chain _ _ _ _ (Hcomma _ _)).
    rewrite (steps_chain _ _ _ _
               (steps_member _ "zh" (Chinese c) _ (Hkey _ "zh"%string ltac:(auto)))).
    rewrite (steps_chain _ _ _ _ (Hcomma _ _)).
    exact (steps_member _ "pinyin" (Pinyin c) _ (Hkey _ "pinyin"%string ltac:(auto))).
Qed.

(** [readValue] on the encoding of a card: the object of its four
    members, and what follows the closing brace is left unread. *)
Lemma readValue_card (c : Flashcard) (cardJSON all rest : string) :
  json.MarshalFlashcard c = Ok cardJSON ->
  json.readValue json.reset all (cardJSON ++ rest) = Ok (cardValue c, rest).
Proof.
  intros Hm. destruct (steps_card c cardJSON Hm) as (pre & -> & E).
  rewrite append_assoc, (readValue_steps _ _ _ all _ E). reflexivity.
Qed.

(** ** Decoding what was encoded *)

Lemma unquote_appendString (s : string) :
  json.unquote (json.appendStringFrom 0 0 s) = Some (sanitize s).
Proof.
  apply (unquote_escaped s 0 0). now left.
Qed.

Lemma intoFlashcard_cardValue (c : Flashcard) :
  goint.min_int <= ID c <= goint.max_int ->
  json.intoFlashcard (cardValue c) json.zeroFlashcard = (sanitizeCard c, false).
Proof.
  intros Hid. unfold json.intoFlashcard, json.intoStruct, cardValue.
  cbn [fold_left fst snd].
  change (json.unquote "id" ≫= json.field ["id"; "en"; "zh"; "pinyin"])
    with (Some "id"%string).
  change (json.unquote "en" ≫= json.field ["id"; "en"; "zh"; "pinyin"])
    with (Some "en"%string).
  change (json.unquote "zh" ≫= json.field ["id"; "en"; "zh"; "pinyin"])
    with (Some "zh"%string).
  change (json.unquote "pinyin" ≫= json.field ["id"; "en"; "zh"; "pinyin"])
    with (Some "pinyin"%string).
  cbv iota beta.
  unfold json.intoInt, json.intoString.
  rewrite (ParseInt_itoa _ Hid), !unquote_appendString.
  reflexivity.
Qed.

(** The decoder reads the encoding of a card back as the card, its
    texts made valid UTF-8, and stands behind the closing brace. *)
Lemma Decode_Marshal (c : Flashcard) (cardJSON rest : string) :
  goint.min_int <= ID c <= goint.max_int ->
  json.MarshalFlashcard c = Ok cardJSON ->
  json.DecodeFlashcard (cardJSON ++ rest) = (Ok (sanitizeCard c), rest).
Proof.
  intros Hid Hm. unfold json.DecodeFlashcard, json.Decode.
  rewrite (readValue_card c cardJSON _ rest Hm), (intoFlashcard_cardValue c Hid).
  reflexivity.
Qed.

Lemma sanitizeCard_storable (c : Flashcard) : storable c -> sanitizeCard c = c.
Proof.
  intros (_ & He & Hz & Hp). unfold sanitizeCard, sanitize.
  rewrite !sanitize_valid by assumption. now destruct c.
Qed.

Lemma skipSpace_blank (b x : string) :
  blank b -> json.skipSpace (b ++ x) = json.skipSpace x.
Proof.
  unfold blank, json.nonSpace. induction b as [| c b IH]; simpl; [reflexivity |].
  destruct (json.isSpace c); [exact IH | discriminate].
Qed.

(** The card's encoding starts with a brace. *)
Lemma Marshal_head (c : Flashcard) (cardJSON : string) :
  json.MarshalFlashcard c = Ok cardJSON -> exists t, cardJSON = String "{" t.
Proof.
  unfold json.MarshalFlashcard. intros [= <-]. eexists. reflexivity.
Qed.

(** Behind blanks, the decoder reads the lines of a deck card by card,
    and is left with blanks. *)
Lemma reads_recordLines (cards : list Flashcard) :
  Forall (fun c => goint.min_int <= ID c <= goint.max_int) cards ->
  forall b : string,
    blank b ->
    exists dec,
      reads (b ++ recordLines cards) (sanitizeCard <$> cards) dec /\ blank dec.
Proof.
  induction 1 as [| c cards Hc _ IH]; intros b Hb.
  - exists b. simpl. rewrite append_nil_r. split; [constructor | exact Hb].
  - destruct (MarshalFlashcard_total c) as [cardJSON Hm].
    destruct (Marshal_head c cardJSON Hm) as [t Ht].
    destruct (IH nl eq_refl) as (dec & Hr & Hd).
    exists dec. split; [| exact Hd].
    cbn [recordLines fmap list_fmap]. rewrite (recordLine_Marshal c cardJSON Hm).
    eapply (reads_card _ (cardJSON ++ nl ++ recordLines cards)).
    + unfold json.More, json.peek. rewrite append_assoc, (skipSpace_blank b _ Hb).
      rewrite Ht. reflexivity.
    + apply (Decode_Marshal c cardJSON _ Hc Hm).
    + exact Hr.
Qed.

(** ** Loading what was saved *)

Lemma sanitizeCards_storable (cards : list Flashcard) :
  Forall storable cards -> sanitizeCard <$> cards = cards.
Proof.
  induction 1 as [| c cs Hc _ IH]; [reflexivity |].
  cbn [fmap list_fmap]. rewrite (sanitizeCard_storable c Hc). f_equal. exact IH.
Qed.

Lemma LoadDeck_recordLines (filename : string) (cards : list Flashcard)
    (a : App) (w : World) :
  os.Open filename (fs w) = Ok (recordLines cards) ->
  Forall (fun c => goint.min_int <= ID c <= goint.max_int) cards ->
  LoadDeck filename a w
  = Some (withDeck (Deck a ++ (sanitizeCard <$> cards)) (withFlashcardsFile filename a),
          None).
Proof.
  intros Ho Hids.
  destruct (reads_recordLines cards Hids EmptyString eq_refl) as (dec & Hr & Hd).
  exact (LoadDeck_end filename _ dec _ _ a w Ho Hr (blank_More dec Hd)).
Qed.

(** X11. A file that holds the lines of a deck, as [SaveNewCard] writes
    them, loads without error as that deck behind the cards that are there:
    as many cards as lines, in the order of the lines, each with its
    identifier and its texts, which are the texts written when these are
    valid UTF-8 (a byte that is not has become U+FFFD). *)
Theorem LoadDeck_reads_back (filename : string) (cards : list Flashcard)
    (a : App) (w : World) :
  os.Open filename (fs w) = Ok (recordLines cards) ->
  Forall (fun c => goint.min_int <= ID c <= goint.max_int) cards ->
  LoadDeck filename a w
  = Some (withDeck (Deck a ++ (sanitizeCard <$> cards)) (withFlashcardsFile filename a),
          None)
  /\ List.length (sanitizeCard <$> cards) = List.length cards
  /\ (Forall storable cards -> sanitizeCard <$> cards = cards).
Proof.
  intros Ho Hids. split; [| split].
  - now apply LoadDeck_recordLines.
  - apply length_fmap.
  - apply sanitizeCards_storable.
Qed.

Lemma LoadDeck_reads_back_witness :
  LoadDeck "flashcards.jsonl" freshApp (sampleWorld sampleFile 1000 Failed)
  = Some (withDeck [dog; cat] (withFlashcardsFile "flashcards.jsonl" freshApp), None).
Proof.
  destruct (LoadDeck_reads_back "flashcards.jsonl" [dog; cat] freshApp
              (sampleWorld sampleFile 1000 Failed)) as (E & _ & Hs).
  - reflexivity.
  - repeat constructor; vm_compute; discriminate.
  - rewrite E. rewrite Hs; [reflexivity |].
    repeat constructor; vm_compute; discriminate || reflexivity.
Defined.

Lemma wrap_range (z : Z) : goint.min_int <= goint.wrap z <= goint.max_int.
Proof.
  unfold goint.wrap, goint.min_int, goint.max_int.
  pose proof (Z.mod_pos_bound (z + 2 ^ 63) (2 ^ 64) ltac:(lia)). lia.
Qed.

(** Appending to a file that may be read leaves a file that may be read,
    with the text behind the old content. *)
Lemma append_then_open (path text : string) (f f1 f2 : os.FS) (n : nat) :
  (forall x, os.files f !! path = Some x -> os.readable x = true) ->
  os.OpenFileAppend path f = (Ok path, f1) ->
  os.Write path text f1 = (Ok n, f2) ->
  os.Open path f2 = Ok (content path f ++ text)%string.
Proof.
  intros Hr. unfold os.OpenFileAppend, os.Write, os.Open, content.
  destruct (os.files f !! path) as [x |] eqn:Hx.
  - destruct (os.writable x); [| discriminate]. intros [= <-]. rewrite Hx.
    destruct (String.length text <=? os.free f)%nat; [| discriminate].
    intros [= _ <-]. simpl. rewrite lookup_insert_eq. simpl.
    now rewrite (Hr x eq_refl).
  - intros [= <-]. simpl. rewrite lookup_insert_eq. simpl.
    destruct (String.length text <=? os.free f)%nat; [| discriminate].
    intros [= _ <-]. simpl. rewrite lookup_insert_eq. reflexivity.
Qed.

(** X12. After a successful [SaveNewCard] over a record file that held the
    lines of the deck, the file holds the lines of the new deck, and a new
    start of the program on that file runs on this deck: the card just saved
    is its last card. The texts come back as they are in memory when they
    are valid UTF-8. *)
Theorem restart_after_save (apiKey env model text zh py cardJSON : string)
    (a : App) (w : World) :
  Translate (service w) (ai a) text = Ok (zh, py) ->
  json.MarshalFlashcard (newCardOver (Deck a) text zh py) = Ok cardJSON ->
  appendable (FlashcardsFile a) (cardJSON ++ nl) (fs w) ->
  0 <= CurrentCardIdx a <= goint.len (Deck a) ->
  persisted a w ->
  Forall (fun c => goint.min_int <= ID c <= goint.max_int) (Deck a) ->
  (forall x, os.files (fs w) !! FlashcardsFile a = Some x -> os.readable x = true) ->
  effectiveKey apiKey env <> EmptyString -> model <> EmptyString ->
  exists a' w',
    SaveNewCard text a w = Ret (a', w')
    /\ Deck a' = (Deck a ++ [newCardOver (Deck a) text zh py])%list
    /\ persisted a' w'
    /\ exists a0,
         main apiKey env (FlashcardsFile a) model w' = Some (Ret (Running a0, w'))
         /\ Deck a0 = sanitizeCard <$> Deck a'
         /\ (Forall storable (Deck a') -> Deck a0 = Deck a').
Proof.
  intros Ht Hm Ha Hi Hp Hids Hr Hk Hmod.
  destruct (append_succeeds _ _ _ Ha) as (f1 & f2 & Ho & Hw & Hc & _).
  pose proof (append_then_open _ _ _ _ _ _ Hr Ho Hw) as Hopen.
  set (deck' := (Deck a ++ [newCardOver (Deck a) text zh py])%list).
  assert (Hlines : (content (FlashcardsFile a) (fs w) ++ cardJSON ++ nl)%string
                   = recordLines deck').
  { unfold deck'. rewrite recordLines_snoc, (recordLine_Marshal _ _ Hm). now rewrite Hp. }
  rewrite Hlines in Hopen, Hc.
  assert (Hids' : Forall (fun c => goint.min_int <= ID c <= goint.max_int) deck').
  { apply Forall_app. split; [exact Hids |]. constructor; [| constructor].
    apply wrap_range. }
  assert (E : exists view,
             SaveNewCard text a w
             = Ret (SetText view
                      (withApplication (tview.SetRootMainView (Application a))
                         (withDeck deck' a)), withFS f2 w)).
  { unfold SaveNewCard. rewrite Ht. unfold newCardOver in *.
    cbn [FlashcardsFile withDeck]. rewrite Ho, Hm, Hw.
    match goal with |- context [UpdateCardView ?b] => set (a1 := b) end.
    destruct (UpdateCardView_valid a1) as [view ->].
    { simpl. rewrite len_snoc. lia. }
    exists view. reflexivity. }
  destruct E as [view E]. eexists _, _. split; [exact E |]. split; [reflexivity |].
  split; [exact Hc |].
  unfold main. fold (effectiveKey apiKey env).
  destruct (String.eqb_spec (effectiveKey apiKey env) EmptyString) as [E0 | _];
    [contradiction |].
  rewrite (NewApp_Ret _ _ Hk Hmod).
  rewrite (LoadDeck_recordLines (FlashcardsFile a) deck' _ (withFS f2 w) Hopen Hids').
  unfold SetupUI.
  match goal with |- context [UpdateCardView ?b] => set (b0 := b) end.
  destruct (UpdateCardView_valid b0) as [view0 ->].
  { simpl. unfold goint.len. rewrite length_fmap. unfold deck'. rewrite length_app.
    simpl. lia. }
  eexists. split; [reflexivity |]. simpl. split; [reflexivity |].
  apply sanitizeCards_storable.
Qed.

Lemma restart_after_save_witness :
  exists a' w' a0,
    SaveNewCard "Hello" sampleApp (sampleWorld sampleFile 1000 (replyWith "你好" "Nǐ hǎo"))
    = Ret (a', w')
    /\ main "key" "" "flashcards.jsonl" "gpt-4o-mini" w' = Some (Ret (Running a0, w'))
    /\ Deck a0 = [dog; cat; mkFlashcard 3 "Hello" "你好" "Nǐ hǎo"].
Proof.
  destruct (restart_after_save "key" "" "gpt-4o-mini" "Hello" "你好" "Nǐ hǎo"
              (recordJSON (mkFlashcard 3 "Hello" "你好" "Nǐ hǎo"))
              sampleApp (sampleWorld sampleFile 1000 (replyWith "你好" "Nǐ hǎo")))
    as (a' & w' & E & Hd & _ & a0 & Em & _ & Hs).
  - vm_compute. reflexivity.
  - vm_compute. reflexivity.
  - split.
    + intros x. vm_compute. intros [= <-]. reflexivity.
    + vm_compute. lia.
  - vm_compute. split; discriminate.
  - vm_compute. reflexivity.
  - repeat constructor; vm_compute; discriminate.
  - intros x. vm_compute. intros [= <-]. reflexivity.
  - discriminate.
  - discriminate.
  - exists a', w', a0. split; [exact E |]. split; [exact Em |].
    rewrite Hs; [exact Hd |]. rewrite Hd.
    repeat constructor; vm_compute; discriminate || reflexivity.
Defined.

(** ** A line that was cut *)

Lemma stateEndValue_inside (st : json.state) (f : json.frame) (ps : list json.frame)
    (t : option json.value) (e : bool) (c : ascii) :
  (forall s', json.stateEndValue_step (json.mkScanner st (f :: ps) t e) c
              <> (json.scanEnd, s'))
  /\ (forall s', json.stateEndValue_step (json.mkScanner st (f :: ps) t e) c
                 = (json.scanContinue, s') ->
                 json.parseState s' <> [] /\ json.step s' <> json.stateEndTop).
Proof.
  unfold json.stateEndValue_step. simpl.
  destruct (json.isSpace c);
    [split; [discriminate | intros s' [= <-]; split; discriminate] |].
  destruct f; repeat match goal with
                     | |- context [if ?b then _ else _] => destruct b
                     end;
    (split; [discriminate | intros s' [= <-] || intros s' [=]; split; discriminate]).
Qed.

(** Inside of a container the scanner does not end the value, and stays
    inside as long as it continues. *)
Lemma scan_inside (s : json.scanner) (c : ascii) :
  json.parseState s <> [] -> json.step s <> json.stateEndTop ->
  (forall s', json.scan s c <> (json.scanEnd, s'))
  /\ (forall s', json.scan s c = (json.scanContinue, s') ->
                 json.parseState s' <> [] /\ json.step s' <> json.stateEndTop).
Proof.
  destruct s as [st [| f ps] t e]; [contradiction |]. intros _ Hst.
  destruct st; simpl in Hst; try contradiction; unfold json.scan; simpl;
    unfold json.stateBeginValue_step, json.stateBeginString_step, json.state0_step,
      json.stateESign_step, json.endNumber, json.pushParseState, json.store; simpl.
  all: try apply stateEndValue_inside.
  all: repeat match goal with
              | |- context [if ?b then _ else _] => destruct b
              | |- context [match ?r with EmptyString => _ | String _ _ => _ end] => destruct r
              | |- context [match ?n with O => _ | S _ => _ end] => destruct n
              end.
  all: try apply stateEndValue_inside.
  all: try (destruct f; simpl; apply stateEndValue_inside).
  all: try (split; [discriminate | intros s' [= <-] || intros s' [=]; split; discriminate]).
  all: destruct f; simpl; (split; [discriminate | intros s' [= <-]; split; discriminate]).
Qed.

Lemma steps_inside (x : string) :
  forall s s' : json.scanner,
    steps s x = Some s' ->
    json.parseState s <> [] -> json.step s <> json.stateEndTop ->
    json.parseState s' <> [] /\ json.step s' <> json.stateEndTop.
Proof.
  induction x as [| c x IH]; intros s s'; simpl.
  - intros [= <-]. auto.
  - destruct (json.scan s c) as [[] s1] eqn:E; try discriminate.
    intros H Hp Hs.
    destruct (proj2 (scan_inside s c Hp Hs) s1 E) as [Hp1 Hs1]. eauto.
Qed.

(** The scanner passes over every part of a text that it passes over. *)
Lemma steps_take (n : nat) :
  forall (x : string) (s s' : json.scanner),
    steps s x = Some s' -> exists s1, steps s (os.take n x) = Some s1.
Proof.
  induction n as [| n IH]; intros [| c x] s s'; simpl; eauto.
  destruct (json.scan s c) as [[] s1]; try discriminate. eauto.
Qed.

Lemma take_append (n : nat) :
  forall x y : string,
    (n <= String.length x)%nat -> os.take n (x ++ y) = os.take n x.
Proof.
  induction n as [| n IH]; intros x y H.
  - destruct x, y; reflexivity.
  - destruct x as [| c x]; simpl in *; [lia |]. rewrite IH by lia. reflexivity.
Qed.

(** When the input ends inside of a container, reading the value fails
    with [io.ErrUnexpectedEOF]. *)
Lemma readValue_cut (x all : string) (s s' : json.scanner) :
  steps s x = Some s' ->
  json.parseState s' <> [] -> json.step s' <> json.stateEndTop ->
  json.nonSpace all = true ->
  json.readValue s all x = Err json.ErrUnexpectedEOF.
Proof.
  intros E Hp Hs Hn.
  rewrite <- (append_nil_r x), (readValue_steps x s s' all EmptyString E). simpl.
  pose proof (proj1 (scan_inside s' " " Hp Hs)) as Hend.
  destruct (json.scan s' " ") as [[] s2]; rewrite ?Hn; try reflexivity.
  now destruct (Hend s2).
Qed.

(** A proper part of a card's encoding that is not empty: the decoder
    fails on it with [io.ErrUnexpectedEOF] and stays where it is. *)
Lemma Decode_cut (c : Flashcard) (cardJSON : string) (n : nat) :
  json.MarshalFlashcard c = Ok cardJSON ->
  (0 < n < String.length cardJSON)%nat ->
  exists t,
    os.take n (cardJSON ++ nl) = String "{" t
    /\ json.DecodeFlashcard (String "{" t) = (Err json.ErrUnexpectedEOF, String "{" t).
Proof.
  intros Hm Hn. destruct (steps_card c cardJSON Hm) as (pre & -> & E).
  rewrite length_append in Hn. simpl in Hn.
  rewrite append_assoc, take_append by lia.
  destruct (steps_take n pre _ _ E) as [s1 E1].
  destruct pre as [| b pre]; [discriminate E |].
  assert (Hb : b = "{"%char).
  { unfold json.MarshalFlashcard in Hm. now injection Hm as Hb _. }
  subst b. destruct n as [| n]; [lia |]. simpl in E1 |- *.
  exists (os.take n pre). split; [reflexivity |].
  change (steps json.reset (String "{" (os.take n pre)))
    with (steps (inObject json.stateBeginStringOrEmpty
                   (json.parseObjectKey [] EmptyString)) (os.take n pre)) in E1.
  destruct (steps_inside _ _ _ E1) as [Hp Hs]; [discriminate | discriminate |].
  unfold json.DecodeFlashcard, json.Decode.
  rewrite (readValue_cut _ _ json.reset s1); auto.
Qed.

(** Behind blanks, the decoder reads the lines of a deck card by card
    and is left with blanks before what follows the lines. *)
Lemma reads_recordLines_then (cards : list Flashcard) (rest : string) :
  Forall (fun c => goint.min_int <= ID c <= goint.max_int) cards ->
  forall b : string,
    blank b ->
    exists b',
      blank b'
      /\ reads (b ++ recordLines cards ++ rest) (sanitizeCard <$> cards) (b' ++ rest).
Proof.
  induction 1 as [| c cards Hc _ IH]; intros b Hb.
  - exists b. split; [exact Hb | constructor].
  - destruct (MarshalFlashcard_total c) as [cardJSON Hm].
    destruct (Marshal_head c cardJSON Hm) as [t Ht].
    destruct (IH nl eq_refl) as (b' & Hb' & Hr).
    exists b'. split; [exact Hb' |].
    cbn [recordLines fmap list_fmap]. rewrite (recordLine_Marshal c cardJSON Hm).
    rewrite !append_assoc.
    eapply (reads_card _ (cardJSON ++ nl ++ recordLines cards ++ rest)).
    + unfold json.More, json.peek. rewrite (skipSpace_blank b _ Hb).
      rewrite Ht. reflexivity.
    + apply (Decode_Marshal c cardJSON _ Hc Hm).
    + exact Hr.
Qed.

(** A write for which the device has not room, to a file that may be
    read: the bytes that fit are behind the old content. *)
Lemma short_write_then_open (path text : string) (f : os.FS) :
  (forall x, os.files f !! path = Some x -> os.readable x = true /\ os.writable x = true) ->
  (os.free f < String.length text)%nat ->
  exists f1 f2,
    os.OpenFileAppend path f = (Ok path, f1)
    /\ os.Write path text f1 = (Err os.ErrNoSpace, f2)
    /\ os.Open path f2 = Ok (content path f ++ os.take (os.free f) text)%string.
Proof.
  intros Hx Hroom. unfold os.OpenFileAppend, os.Write, os.Open, content.
  destruct (os.files f !! path) as [x |] eqn:E.
  - destruct (Hx x eq_refl) as [Hr Hw]. rewrite Hw. eexists _, _.
    split; [reflexivity |]. rewrite E.
    destruct (Nat.leb_spec (String.length text) (os.free f)); [lia |].
    split; [reflexivity |]. simpl. rewrite lookup_insert_eq. simpl. now rewrite Hr.
  - eexists _, _. split; [reflexivity |]. simpl. rewrite lookup_insert_eq. simpl.
    destruct (Nat.leb_spec (String.length text) (os.free f)); [lia |].
    split; [reflexivity |]. simpl. rewrite lookup_insert_eq. reflexivity.
Qed.

(** X13. When the device has room for a part of the new card's encoding
    only, [SaveNewCard] leaves that part at the end of the record file and
    stops the application; the program then does not start on this file any
    more: [LoadDeck] fails at the part with [io.ErrUnexpectedEOF], and
    [main] prints the error and exits with status 1. *)
Theorem short_write_breaks_restart (apiKey env model text zh py cardJSON : string)
    (a : App) (w : World) :
  Translate (service w) (ai a) text = Ok (zh, py) ->
  json.MarshalFlashcard (newCardOver (Deck a) text zh py) = Ok cardJSON ->
  (forall x, os.files (fs w) !! FlashcardsFile a = Some x ->
             os.readable x = true /\ os.writable x = true) ->
  (0 < os.free (fs w) < String.length cardJSON)%nat ->
  persisted a w ->
  Forall (fun c => goint.min_int <= ID c <= goint.max_int) (Deck a) ->
  effectiveKey apiKey env <> EmptyString -> model <> EmptyString ->
  exists a' w',
    SaveNewCard text a w = Ret (a', w')
    /\ tview.stopped (Application a') = true
    /\ stdout w'
       = (stdout w ++ [("Error writing new card to file:"%string,
                        Some (OSError os.ErrNoSpace))])%list
    /\ content (FlashcardsFile a) (fs w')
       = (content (FlashcardsFile a) (fs w)
          ++ os.take (os.free (fs w)) cardJSON)%string
    /\ main apiKey env (FlashcardsFile a) model w'
       = Some (Ret (Exit 1,
                    Println "Error loading deck:" (Some (JSONError json.ErrUnexpectedEOF))
                      w')).
Proof.
  intros Ht Hm Hx Hn Hp Hids Hk Hmod.
  destruct (short_write_then_open (FlashcardsFile a) (cardJSON ++ nl) (fs w) Hx)
    as (f1 & f2 & Ho & Hw & Hopen).
  { rewrite length_append. lia. }
  destruct (Decode_cut _ cardJSON (os.free (fs w)) Hm Hn) as (t & Htake & Hd).
  eexists _, _. split.
  { unfold SaveNewCard. rewrite Ht. unfold newCardOver in *.
    cbn [FlashcardsFile withDeck]. rewrite Ho, Hm, Hw. reflexivity. }
  split; [reflexivity |]. split; [reflexivity |]. split.
  { simpl. unfold content at 1. unfold os.Open in Hopen.
    destruct (os.files f2 !! FlashcardsFile a) as [x |]; [| discriminate].
    destruct (os.readable x); [| discriminate]. injection Hopen as ->.
    rewrite <- (take_append _ cardJSON nl) by lia. reflexivity. }
  rewrite Hp, Htake in Hopen.
  destruct (reads_recordLines_then (Deck a) (String "{" t) Hids EmptyString eq_refl)
    as (b' & Hb' & Hr).
  eapply main_load_error; [exact (NewApp_Ret _ _ Hk Hmod) |].
  eapply LoadDeck_decode_error.
  - exact Hopen.
  - exact Hr.
  - unfold json.More, json.peek. rewrite (skipSpace_blank b' _ Hb'). reflexivity.
  - exact Hd.
Qed.

Lemma short_write_breaks_restart_witness :
  exists a' w',
    SaveNewCard "Hello" sampleApp (sampleWorld sampleFile 20 (replyWith "你好" "Nǐ hǎo"))
    = Ret (a', w')
    /\ Deck a' = [dog; cat; mkFlashcard 3 "Hello" "你好" "Nǐ hǎo"]
    /\ main "key" "" "flashcards.jsonl" "gpt-4o-mini" w'
       = Some (Ret (Exit 1,
                    Println "Error loading deck:" (Some (JSONError json.ErrUnexpectedEOF))
                      w')).
Proof.
  destruct (short_write_breaks_restart "key" "" "gpt-4o-mini" "Hello" "你好" "Nǐ hǎo"
              (recordJSON (mkFlashcard 3 "Hello" "你好" "Nǐ hǎo"))
              sampleApp (sampleWorld sampleFile 20 (replyWith "你好" "Nǐ hǎo")))
    as (a' & w' & E & _ & _ & _ & Em).
  - vm_compute. reflexivity.
  - vm_compute. reflexivity.
  - intros x. vm_compute. intros [= <-]. split; reflexivity.
  - vm_compute. lia.
  - vm_compute. reflexivity.
  - repeat constructor; vm_compute; discriminate.
  - discriminate.
  - discriminate.
  - exists a', w'. split; [exact E |]. split; [| exact Em].
    vm_compute in E. injection E as <- _. reflexivity.
Defined.

(** ** Identifiers that are not in sequence *)

(** X14. [SaveNewCard] numbers the new card by the length of the deck and
    does not look at the identifiers in use: over a deck that has a card
    with the identifier [len(Deck)+1] already, it saves a second card with
    this identifier, in the deck and in the file. *)
Theorem SaveNewCard_repeats_id (text zh py cardJSON : string) (c : Flashcard)
    (a : App) (w : World) :
  Translate (service w) (ai a) text = Ok (zh, py) ->
  json.MarshalFlashcard (newCardOver (Deck a) text zh py) = Ok cardJSON ->
  appendable (FlashcardsFile a) (cardJSON ++ nl) (fs w) ->
  0 <= CurrentCardIdx a <= goint.len (Deck a) ->
  In c (Deck a) -> ID c = goint.add (goint.len (Deck a)) 1 ->
  exists a' w',
    SaveNewCard text a w = Ret (a', w')
    /\ Deck a' = (Deck a ++ [newCardOver (Deck a) text zh py])%list
    /\ ID (newCardOver (Deck a) text zh py) = ID c
    /\ ~ NoDup (ID <$> Deck a')
    /\ content (FlashcardsFile a) (fs w')
       = (content (FlashcardsFile a) (fs w) ++ cardJSON ++ nl)%string.
Proof.
  intros Ht Hm Ha Hi Hc Hid.
  destruct (SaveNewCard_saved text zh py cardJSON a w Ht Hm Ha Hi)
    as (view & f2 & E & Hf & _).
  eexists _, _. split; [exact E |]. split; [reflexivity |].
  split; [symmetry; exact Hid |]. split; [| exact Hf].
  cbn [Deck SetText withApplication withDeck]. rewrite fmap_app.
  intros Hnd. apply NoDup_app in Hnd as (_ & Hdis & _).
  apply (Hdis (ID c)).
  - apply list_elem_of_fmap_2. now apply list_elem_of_In.
  - cbn [fmap list_fmap newCardOver ID]. rewrite Hid. apply list_elem_of_In. now left.
Qed.

Lemma SaveNewCard_repeats_id_witness :
  exists a' w',
    SaveNewCard "Hello" (withDeck [cat] sampleApp)
      (sampleWorld (recordLine cat) 1000 (replyWith "你好" "Nǐ hǎo"))
    = Ret (a', w')
    /\ Deck a' = [cat; mkFlashcard 2 "Hello" "你好" "Nǐ hǎo"].
Proof.
  destruct (SaveNewCard_repeats_id "Hello" "你好" "Nǐ hǎo"
              (recordJSON (mkFlashcard 2 "Hello" "你好" "Nǐ hǎo")) cat
              (withDeck [cat] sampleApp)
              (sampleWorld (recordLine cat) 1000 (replyWith "你好" "Nǐ hǎo")))
    as (a' & w' & E & Hd & _).
  - vm_compute. reflexivity.
  - vm_compute. reflexivity.
  - split.
    + intros x. vm_compute. intros [= <-]. reflexivity.
    + vm_compute. lia.
  - vm_compute. split; discriminate.
  - left. reflexivity.
  - reflexivity.
  - exists a', w'. split; [exact E |]. exact Hd.
Defined.

(** * Saving, and what the next run finds *)

(** The encodings written out are those of the encoder. *)
Lemma sample_encodings :
  recordJSON hello = helloJSON /\ recordJSON dog = dogJSON /\ recordJSON cat = catJSON.
Proof.
  vm_compute. repeat split.
Qed.

(** ** Restarting on the record file *)

Lemma reads_app (x y z : string) (cs cs' : list Flashcard) :
  reads x cs y -> reads y cs' z -> reads x (cs ++ cs') z.
Proof.
  induction 1 as [| dec dec1 dec2 dec3 card cards Hm Hd _ IH]; intros H; [exact H |].
  simpl. eapply reads_card; eauto.
Qed.

(** When [LoadDeck] reads the cards [cards] without error, [main] starts
    the application on them, and prints nothing. *)
Lemma main_loaded (apiKey env filePath model : string) (w : World)
    (cards : list Flashcard) :
  effectiveKey apiKey env <> EmptyString -> model <> EmptyString ->
  (forall a, LoadDeck filePath a w
             = Some (withDeck (Deck a ++ cards) (withFlashcardsFile filePath a), None)) ->
  exists a0,
    main apiKey env filePath model w = Some (Ret (Running a0, w)) /\ Deck a0 = cards.
Proof.
  intros Hk Hm Hl. unfold main. fold (effectiveKey apiKey env).
  destruct (String.eqb_spec (effectiveKey apiKey env) EmptyString) as [E | _];
    [contradiction |].
  rewrite (NewApp_Ret _ _ Hk Hm), Hl. unfold SetupUI.
  match goal with |- context [UpdateCardView ?b] => set (b0 := b) end.
  destruct (UpdateCardView_returns b0) as [view ->].
  { simpl. destruct cards as [| c cards]; [now left | right].
    unfold goint.len. simpl. lia. }
  eexists. split; [reflexivity |]. reflexivity.
Qed.

(** A file that holds the lines of a deck and, behind them, the encoding
    of one more card without its newline: [LoadDeck] reads the deck and
    the card. *)
Lemma LoadDeck_open_line (filename cardJSON : string) (cards : list Flashcard)
    (c : Flashcard) (a : App) (w : World) :
  os.Open filename (fs w) = Ok (recordLines cards ++ cardJSON)%string ->
  Forall (fun c => goint.min_int <= ID c <= goint.max_int) cards ->
  goint.min_int <= ID c <= goint.max_int ->
  json.MarshalFlashcard c = Ok cardJSON ->
  LoadDeck filename a w
  = Some (withDeck (Deck a ++ (sanitizeCard <$> (cards ++ [c])%list))
            (withFlashcardsFile filename a), None).
Proof.
  intros Ho Hids Hc Hm.
  destruct (reads_recordLines_then cards cardJSON Hids EmptyString eq_refl)
    as (b' & Hb' & Hr).
  destruct (Marshal_head c cardJSON Hm) as [t Ht].
  rewrite fmap_app.
  eapply (LoadDeck_end filename _ EmptyString EmptyString); [exact Ho | | reflexivity].
  eapply reads_app; [exact Hr |].
  eapply (reads_card _ cardJSON EmptyString); [| | constructor].
  - unfold json.More, json.peek. rewrite (skipSpace_blank b' _ Hb'), Ht. reflexivity.
  - rewrite <- (append_nil_r cardJSON) at 1. exact (Decode_Marshal c cardJSON _ Hc Hm).
Qed.

Lemma take_all (s t : string) : os.take (String.length s) (s ++ t) = s.
Proof.
  induction s as [| c s IH]; simpl; [now destruct t | now rewrite IH].
Qed.

Lemma take_0 (s : string) : os.take 0 s = EmptyString.
Proof.
  now destruct s.
Qed.

(** What a failing append leaves: the file system after it, the error,
    and the number of bytes that reached the file. *)
Lemma append_fails_file (path text : string) (f : os.FS) :
  ~ appendable path text f -> (0 < String.length text)%nat ->
  exists (f2 : os.FS) (n : nat) (e : os.error),
    ((os.OpenFileAppend path f = (Err e, f2) /\ n = 0%nat)
     \/ exists f1,
          os.OpenFileAppend path f = (Ok path, f1)
          /\ os.Write path text f1 = (Err e, f2))
    /\ (n < String.length text)%nat
    /\ content path f2 = (content path f ++ os.take n text)%string
    /\ ((forall x, os.files f !! path = Some x -> os.readable x = true) ->
        os.Open path f2 = Ok (content path f2)).
Proof.
  intros Hn Hpos. unfold os.OpenFileAppend, os.Write, os.Open, content.
  destruct (os.files f !! path) as [x |] eqn:Hx.
  - destruct (os.writable x) eqn:Hw.
    + eexists _, (os.free f), _. split; [right; eexists; split; [reflexivity |] |].
      { rewrite Hx. destruct (Nat.leb_spec (String.length text) (os.free f)) as [Hle | Hlt];
          [| reflexivity].
        exfalso. apply Hn. split; [| exact Hle]. intros y Hy. congruence. }
      destruct (Nat.leb_spec (String.length text) (os.free f)) as [Hle | Hlt].
      { exfalso. apply Hn. split; [| exact Hle]. intros y Hy. congruence. }
      split; [exact Hlt |]. simpl. rewrite lookup_insert_eq. simpl.
      split; [reflexivity |]. intros Hr. now rewrite (Hr x eq_refl).
    + exists f, 0%nat, os.ErrPermission. split; [left; split; reflexivity |].
      split; [exact Hpos |]. rewrite Hx, take_0, append_nil_r.
      split; [reflexivity |]. intros Hr. now rewrite (Hr x eq_refl).
  - eexists _, (os.free f), _. split; [right; eexists; split; [reflexivity |] |].
    { simpl. rewrite lookup_insert_eq.
      destruct (Nat.leb_spec (String.length text) (os.free f)) as [Hle | Hlt];
        [| reflexivity].
      exfalso. apply Hn. split; [| exact Hle]. intros y Hy. congruence. }
    destruct (Nat.leb_spec (String.length text) (os.free f)) as [Hle | Hlt].
    { exfalso. apply Hn. split; [| exact Hle]. intros y Hy. congruence. }
    split; [exact Hlt |]. simpl. rewrite lookup_insert_eq. simpl.
    split; [reflexivity |]. intros _. reflexivity.
Qed.

(** C10, as stated, fails: when the device has room for the encoding of
    the card but not for the newline behind it, the write fails and the
    application is stopped with the error printed, yet the record of the
    card is whole in the file, and the next run of the program loads
    exactly the deck that was in memory. *)
Lemma save_failure_persisted_counterexample :
  exists a' w' a0,
    SaveNewCard "Hello" sampleApp
      (sampleWorld sampleFile (String.length helloJSON) (replyWith "你好" "Nǐ hǎo"))
    = Ret (a', w')
    /\ tview.stopped (Application a') = true
    /\ stdout w'
       = [("Error writing new card to file:"%string, Some (OSError os.ErrNoSpace))]
    /\ Deck a' = [dog; cat; hello]
    /\ content "flashcards.jsonl" (fs w') = (dogJSON ++ nl ++ catJSON ++ nl ++ helloJSON)%string
    /\ main "key" "" "flashcards.jsonl" "gpt-4o-mini" w' = Some (Ret (Running a0, w'))
    /\ Deck a0 = Deck a'.
Proof.
  eexists _, _, _. split; [vm_compute; reflexivity |].
  split; [reflexivity |]. split; [reflexivity |]. split; [reflexivity |].
  split; [vm_compute; reflexivity |]. split; [vm_compute; reflexivity |]. reflexivity.
Qed.

(** C10, amended.  [SaveNewCard] puts the new card into the deck before
    it touches the file: when opening the file or writing to it fails
    (encoding a card cannot fail), the application is stopped with the
    card in the deck and the error printed, while the file holds, behind
    its old content, the first [n] bytes of the card's encoding, never
    the whole line.  Over a record file that held the lines of the deck,
    what the next run of the program finds depends on [n]: no byte, and
    it runs on the old deck, without the card; a proper part of the
    encoding, and it fails to load; the whole encoding, without its
    newline, and it runs on the deck with the card. *)
Theorem save_failure_outcomes (text zh py cardJSON : string) (a : App) (w : World) :
  Translate (service w) (ai a) text = Ok (zh, py) ->
  json.MarshalFlashcard (newCardOver (Deck a) text zh py) = Ok cardJSON ->
  ~ appendable (FlashcardsFile a) (cardJSON ++ nl) (fs w) ->
  exists (a' : App) (w' : World) (n : nat),
    SaveNewCard text a w = Ret (a', w')
    /\ Deck a' = (Deck a ++ [newCardOver (Deck a) text zh py])%list
    /\ tview.stopped (Application a') = true
    /\ (exists msg e, stdout w' = (stdout w ++ [(msg, Some (OSError e))])%list)
    /\ (n <= String.length cardJSON)%nat
    /\ content (FlashcardsFile a) (fs w')
       = (content (FlashcardsFile a) (fs w) ++ os.take n cardJSON)%string
    /\ content (FlashcardsFile a) (fs w')
       <> (content (FlashcardsFile a) (fs w) ++ cardJSON ++ nl)%string
    /\ (persisted a w ->
        Forall (fun c => goint.min_int <= ID c <= goint.max_int) (Deck a) ->
        (forall x, os.files (fs w) !! FlashcardsFile a = Some x -> os.readable x = true) ->
        forall apiKey env model : string,
          effectiveKey apiKey env <> EmptyString -> model <> EmptyString ->
          (n = 0%nat ->
           exists a0,
             main apiKey env (FlashcardsFile a) model w' = Some (Ret (Running a0, w'))
             /\ Deck a0 = sanitizeCard <$> Deck a)
          /\ ((0 < n < String.length cardJSON)%nat ->
              main apiKey env (FlashcardsFile a) model w'
              = Some (Ret (Exit 1,
                           Println "Error loading deck:"
                             (Some (JSONError json.ErrUnexpectedEOF)) w')))
          /\ (n = String.length cardJSON ->
              exists a0,
                main apiKey env (FlashcardsFile a) model w' = Some (Ret (Running a0, w'))
                /\ Deck a0 = sanitizeCard <$> Deck a')).
Proof.
  intros Ht Hm Ha.
  destruct (append_fails_file _ _ _ Ha) as (f2 & n & e & Hcase & Hn & Hc & Hopen).
  { rewrite length_append. simpl. lia. }
  rewrite length_append in Hn. simpl in Hn.
  assert (Hle : (n <= String.length cardJSON)%nat) by lia.
  assert (Htake : os.take n (cardJSON ++ nl) = os.take n cardJSON)
    by (now apply take_append).
  assert (E : exists msg,
             SaveNewCard text a w
             = Ret (stop (withDeck (Deck a ++ [newCardOver (Deck a) text zh py]) a),
                    Println msg (Some (OSError e)) (withFS f2 w))).
  { unfold SaveNewCard. rewrite Ht. unfold newCardOver in *.
    cbn [FlashcardsFile withDeck].
    destruct Hcase as [[-> _] | (f1 & -> & Hw)]; [eexists; reflexivity |].
    rewrite Hm, Hw. eexists. reflexivity. }
  destruct E as [msg E]. eexists _, _, n. split; [exact E |].
  split; [reflexivity |]. split; [reflexivity |]. split; [simpl; eauto |].
  split; [exact Hle |]. cbn [fs Println withFS]. rewrite Hc, Htake.
  split; [reflexivity |]. split.
  { rewrite <- Htake. apply take_short. rewrite length_append. simpl. lia. }
  intros Hp Hids Hr apiKey env model Hk Hmod.
  specialize (Hopen Hr). rewrite Hc, Htake, Hp in Hopen.
  split; [| split].
  - intros ->. rewrite take_0, append_nil_r in Hopen.
    apply main_loaded; [exact Hk | exact Hmod |]. intros b.
    now apply LoadDeck_recordLines.
  - intros Hcut.
    destruct (Decode_cut _ cardJSON n Hm Hcut) as (t & Hcard & Hd).
    rewrite Htake in Hcard. rewrite Hcard in Hopen.
    destruct (reads_recordLines_then (Deck a) (String "{" t) Hids EmptyString eq_refl)
      as (b' & Hb' & Hrd).
    eapply main_load_error; [exact (NewApp_Ret _ _ Hk Hmod) |].
    eapply LoadDeck_decode_error.
    + exact Hopen.
    + exact Hrd.
    + unfold json.More, json.peek. rewrite (skipSpace_blank b' _ Hb'). reflexivity.
    + exact Hd.
  - intros ->. rewrite <- (append_nil_r cardJSON) in Hopen at 2.
    rewrite take_all in Hopen.
    apply main_loaded; [exact Hk | exact Hmod |]. intros b.
    apply (LoadDeck_open_line _ cardJSON); [exact Hopen | exact Hids | | exact Hm].
    apply wrap_range.
Qed.

Lemma save_failure_outcomes_witness :
  exists a' w',
    SaveNewCard "Hello" sampleApp (sampleWorld sampleFile 10 (replyWith "你好" "Nǐ hǎo"))
    = Ret (a', w')
    /\ Deck a' = [dog; cat; hello]
    /\ content "flashcards.jsonl" (fs w')
       = (dogJSON ++ nl ++ catJSON ++ nl ++ os.take 10 helloJSON)%string
    /\ main "key" "" "flashcards.jsonl" "gpt-4o-mini" w'
       = Some (Ret (Exit 1,
                    Println "Error loading deck:" (Some (JSONError json.ErrUnexpectedEOF))
                      w')).
Proof.
  destruct (save_failure_outcomes "Hello" "你好" "Nǐ hǎo" helloJSON
              sampleApp (sampleWorld sampleFile 10 (replyWith "你好" "Nǐ hǎo")))
    as (a' & w' & n & E & Hd & _ & _ & _ & Hc & _ & Hrun).
  - vm_compute. reflexivity.
  - vm_compute. reflexivity.
  - intros [_ Hroom]. vm_compute in Hroom. lia.
  - assert (Hn : n = 10%nat).
    { vm_compute in E. injection E as _ <-. vm_compute in Hc.
      destruct n as [| [| [| [| [| [| [| [| [| [| [| n]]]]]]]]]]];
        try reflexivity; vm_compute in Hc; discriminate Hc. }
    subst n. exists a', w'. split; [exact E |]. split; [exact Hd |]. split.
    + etransitivity; [exact Hc | vm_compute; reflexivity].
    + apply (Hrun eq_refl); try discriminate.
      * repeat constructor; vm_compute; discriminate.
      * intros x. vm_compute. intros [= <-]. reflexivity.
      * vm_compute. lia.
Defined.

(** ** One line for a card *)

Lemma textLines_closed (s : string) : pending s = EmptyString -> textLines s = lines s.
Proof.
  unfold textLines. intros ->. apply app_nil_r.
Qed.

Lemma textLines_open (s : string) :
  pending s <> EmptyString -> textLines s = (lines s ++ [pending s])%list.
Proof.
  unfold textLines. destruct (pending s); [contradiction | reflexivity].
Qed.




(** ** The submitted card *)


